(** * data_utils: vocabularies, token ids, UNK replacement and rare-word weights

    A shallow embedding of [Seq2Seq/py/data_utils.py] and the properties of
    its vocabulary builder, encoder, decoder and frequency reweighting.

    Conventions of the embedding.
    - Python [bytes] and [str] values are [string]s (sequences of 8-bit
      characters); text decoding is not modelled.
    - Python [int]s are [Z] where they are ids or sizes that may be negative,
      and [nat] where they are counters or positions produced by
      [enumerate], [len] or [np.argmax].
    - A [dict] whose iteration order is observed ([vocab] in
      [create_vocabulary]) is an association list in insertion order, which
      is the iteration order of a Python 3.7+ [dict]; the other dicts are
      [gmap]s.
    - A raised exception is the [Raise] outcome of the [result] monad.
    - A file opened in binary mode is its content; iterating it splits after
      every newline byte.  A file opened in text mode is given by the lines
      its iteration yields.
    - The module runs under Python 3 only (the keyword-only parameter of
      [safe_extract] is no Python 2 syntax): a name that the module does not
      bind and that is no builtin of Python 3 raises [NameError] when it is
      evaluated. *)

From Stdlib Require Import QArith Ascii DecimalString.
From Stdlib Require DecimalPos.
From stdpp Require Import gmap strings list fin_maps sorting.

Local Open Scope string_scope.
Local Open Scope nat_scope.
Local Open Scope list_scope.
Local Open Scope stdpp_scope.

(** ** Exceptions *)

Inductive exn : Type :=
  | IndexError
  | ValueError
  | TypeError
  | ZeroDivisionError
  | NameError.

Inductive result (A : Type) : Type :=
  | Ok (a : A)
  | Raise (e : exn).
Arguments Ok {A} a.
Arguments Raise {A} e.

#[global] Instance result_ret : MRet result := fun _ a => Ok a.
#[global] Instance result_bind : MBind result := fun _ _ f m =>
  match m with
  | Ok a => f a
  | Raise e => Raise e
  end.

(** ** Special vocabulary symbols *)

Definition _PAD : string := "_PAD".
Definition _GO : string := "_GO".
Definition _EOS : string := "_EOS".
Definition _UNK : string := "_UNK".
Definition _START_VOCAB : list string := [_PAD; _GO; _EOS; _UNK].

Definition PAD_ID : Z := 0.
Definition GO_ID : Z := 1.
Definition EOS_ID : Z := 2.
Definition UNK_ID : Z := 3.

(** ** Python string and list primitives *)

Definition newline : ascii := Ascii.ascii_of_nat 10.

(** Whitespace of [bytes.strip] and [bytes.split]: space, tab, line feed,
    vertical tab, form feed and carriage return. *)
Definition bytes_isspace (c : ascii) : bool :=
  let n := Ascii.nat_of_ascii c in
  Nat.eqb n 32 || (Nat.leb 9 n && Nat.leb n 13).

(** Whitespace of [str.strip] and [str.split] among the code points below
    256: the above, the separators 28..31, NEL (133) and the no-break
    space (160). *)
Definition str_isspace (c : ascii) : bool :=
  let n := Ascii.nat_of_ascii c in
  bytes_isspace c || (Nat.leb 28 n && Nat.leb n 31) || Nat.eqb n 133 || Nat.eqb n 160.

Definition is_empty (s : string) : bool :=
  match s with
  | EmptyString => true
  | String _ _ => false
  end.

Fixpoint lstrip (isspace : ascii -> bool) (s : string) : string :=
  match s with
  | EmptyString => EmptyString
  | String c s' => if isspace c then lstrip isspace s' else s
  end.

Fixpoint rstrip (isspace : ascii -> bool) (s : string) : string :=
  match s with
  | EmptyString => EmptyString
  | String c s' =>
      let r := rstrip isspace s' in
      if isspace c && is_empty r then EmptyString else String c r
  end.

(** [s.strip()] *)
Definition strip (isspace : ascii -> bool) (s : string) : string :=
  rstrip isspace (lstrip isspace s).

(** [s.split()]: the maximal runs of non-whitespace characters, in order.
    [cur] is the run being read. *)
Fixpoint split_go (isspace : ascii -> bool) (cur : string) (s : string) : list string :=
  match s with
  | EmptyString => if is_empty cur then [] else [cur]
  | String c s' =>
      if isspace c
      then (if is_empty cur then split_go isspace EmptyString s'
            else cur :: split_go isspace EmptyString s')
      else split_go isspace (cur +:+ String c EmptyString) s'
  end.

Definition split (isspace : ascii -> bool) (s : string) : list string :=
  split_go isspace EmptyString s.

(** [sep.join(words)] *)
Fixpoint join (sep : string) (words : list string) : string :=
  match words with
  | [] => EmptyString
  | [w] => w
  | w :: ws => w +:+ sep +:+ join sep ws
  end.

(** Iterating a file opened in binary mode (also [readlines]): every line
    keeps its newline; a last line without one is yielded as it is. *)
Fixpoint readlines_go (cur : string) (content : string) : list string :=
  match content with
  | EmptyString => if is_empty cur then [] else [cur]
  | String c rest =>
      if Ascii.eqb c newline
      then (cur +:+ String c EmptyString) :: readlines_go EmptyString rest
      else readlines_go (cur +:+ String c EmptyString) rest
  end.

Definition readlines (content : string) : list string :=
  readlines_go EmptyString content.

(** [l[i]] for a Python list and an [int] index: a negative index counts
    from the end, an index out of range raises [IndexError]. *)
Definition py_getitem {A : Type} (l : list A) (i : Z) : result A :=
  let n := Z.of_nat (length l) in
  let j := if (i <? 0)%Z then (i + n)%Z else i in
  if (j <? 0)%Z then Raise IndexError
  else match l !! Z.to_nat j with
       | Some x => Ok x
       | None => Raise IndexError
       end.

(** [l[i]] for an index that is a position (never negative). *)
Definition py_index {A : Type} (l : list A) (i : nat) : result A :=
  match l !! i with
  | Some x => Ok x
  | None => Raise IndexError
  end.

(** [l[:n]] *)
Definition py_slice_to {A : Type} (l : list A) (n : Z) : list A :=
  if (n <? 0)%Z then take (length l - Z.to_nat (- n)) l
  else take (Z.to_nat n) l.

(** ** Tokenizer *)

(** [basic_tokenizer]: [sentence.strip().split()] on bytes. *)
Definition basic_tokenizer (sentence : string) : list string :=
  split bytes_isspace (strip bytes_isspace sentence).

Definition is_digit (c : ascii) : bool :=
  let n := Ascii.nat_of_ascii c in Nat.leb 48 n && Nat.leb n 57.

(** [_DIGIT_RE.sub(b"0", w)]: every digit becomes the character 0. *)
Fixpoint normalize_digits_sub (w : string) : string :=
  match w with
  | EmptyString => EmptyString
  | String c w' =>
      String (if is_digit c then Ascii.ascii_of_nat 48 else c) (normalize_digits_sub w')
  end.

(** [tokenizer(line) if tokenizer else basic_tokenizer(line)] *)
Definition tokenize (tokenizer : option (string -> list string)) (line : string) : list string :=
  match tokenizer with
  | Some tok => tok line
  | None => basic_tokenizer line
  end.

(** ** Encoder *)

(** [sentence_to_token_ids]: [vocabulary.get(w, UNK_ID)] for every token.
    No operation of the body can raise, so the result is a plain list. *)
Definition sentence_to_token_ids (sentence : string) (vocabulary : gmap string Z)
    (tokenizer : option (string -> list string)) (normalize_digits : bool) : list Z :=
  let words := tokenize tokenizer sentence in
  if negb normalize_digits
  then map (fun w => default UNK_ID (vocabulary !! w)) words
  else map (fun w => default UNK_ID (vocabulary !! normalize_digits_sub w)) words.

(** ** Vocabulary builder *)

(** The frequency dict [vocab] of [create_vocabulary], in insertion order. *)
Definition pydict (V : Type) : Type := list (string * V).

Fixpoint dict_get {V : Type} (d : pydict V) (k : string) : option V :=
  match d with
  | [] => None
  | (k', v) :: d' => if String.eqb k' k then Some v else dict_get d' k
  end.

Definition dict_keys {V : Type} (d : pydict V) : list string := map fst d.

(** [if word in vocab: vocab[word] += 1 else: vocab[word] = 1]: a key that
    is present keeps its place, a new key goes to the end. *)
Fixpoint vocab_count (word : string) (vocab : pydict nat) : pydict nat :=
  match vocab with
  | [] => [(word, 1)]
  | (k, v) :: vocab' =>
      if String.eqb k word then (k, S v) :: vocab'
      else (k, v) :: vocab_count word vocab'
  end.

(** The words counted for one corpus line, in the order of the inner loop. *)
Definition line_words (tokenizer : option (string -> list string))
    (normalize_digits : bool) (line : string) : list string :=
  map (fun w => if normalize_digits then normalize_digits_sub w else w)
      (tokenize tokenizer line).

(** The two nested loops over lines and tokens. *)
Definition count_corpus (tokenizer : option (string -> list string))
    (normalize_digits : bool) (lines : list string) : pydict nat :=
  foldl (fun vocab line =>
           foldl (fun vocab word => vocab_count word vocab) vocab
                 (line_words tokenizer normalize_digits line))
        [] lines.

(** [sorted(xs, key=key, reverse=True)]: a stable sort by descending key,
    written as an insertion sort.  [insert_desc] puts [x], which stood
    before every element of [l], behind the elements of greater key and in
    front of those of equal or smaller key. *)
Fixpoint insert_desc {A : Type} (key : A -> nat) (x : A) (l : list A) : list A :=
  match l with
  | [] => [x]
  | y :: l' =>
      if key x <? key y then y :: insert_desc key x l'
      else x :: y :: l'
  end.

Definition sorted_desc {A : Type} (key : A -> nat) (xs : list A) : list A :=
  foldr (insert_desc key) [] xs.

(** [vocab.get] as the sort key; every sorted key is present in [vocab]. *)
Definition vocab_get (vocab : pydict nat) (w : string) : nat :=
  default 0 (dict_get vocab w).

(** [vocab_list] of [create_vocabulary], as it is written to the file. *)
Definition create_vocab_list (data : string) (max_vocabulary_size : Z)
    (tokenizer : option (string -> list string)) (normalize_digits : bool) : list string :=
  let vocab := count_corpus tokenizer normalize_digits (readlines data) in
  let vocab_list := _START_VOCAB ++ sorted_desc (vocab_get vocab) (dict_keys vocab) in
  if (max_vocabulary_size <? Z.of_nat (length vocab_list))%Z
  then py_slice_to vocab_list max_vocabulary_size
  else vocab_list.

(** [vocab_file.write(w + b"\n")] for every entry, in order. *)
Definition write_vocabulary (vocab_list : list string) : string :=
  foldr (fun w content => w +:+ String newline content) EmptyString vocab_list.

(** [create_vocabulary]: the content of the vocabulary file it writes for
    the corpus file of content [data]. *)
Definition create_vocabulary (data : string) (max_vocabulary_size : Z)
    (tokenizer : option (string -> list string)) (normalize_digits : bool) : string :=
  write_vocabulary (create_vocab_list data max_vocabulary_size tokenizer normalize_digits).

(** ** Vocabulary index *)

(** [dict([(x, y) for (y, x) in enumerate(rev_vocab)])]: later pairs
    overwrite earlier ones. *)
Definition dict_of_enumerate (rev_vocab : list string) : gmap string Z :=
  foldl (fun vocab '(y, x) => <[x := Z.of_nat y]> vocab) ∅ (imap pair rev_vocab).

(** [initialize_vocabulary]; [vocabulary_file] is [None] when the path does
    not exist. *)
Definition initialize_vocabulary (vocabulary_file : option string)
    : result (gmap string Z * list string) :=
  match vocabulary_file with
  | Some content =>
      let rev_vocab := map (strip bytes_isspace) (readlines content) in
      Ok (dict_of_enumerate rev_vocab, rev_vocab)
  | None => Raise ValueError
  end.

(** ** Decoder and UNK replacement *)

(** [np.argmax] of a one-dimensional array: the first position holding the
    maximum; [ValueError] on an empty array.  Attention masses are rational
    numbers ([nan] is not modelled).  [best_pos] and [best] are the position
    and value of the maximum of the part already read, [pos] the position
    of the head of [xs]. *)
Fixpoint argmax_from (best_pos : nat) (best : Q) (pos : nat) (xs : list Q) : nat :=
  match xs with
  | [] => best_pos
  | x :: xs' =>
      if Qle_bool x best then argmax_from best_pos best (S pos) xs'
      else argmax_from pos x (S pos) xs'
  end.

Definition np_argmax (xs : list Q) : result nat :=
  match xs with
  | [] => Raise ValueError
  | x :: xs' => Ok (argmax_from 0 x 1 xs')
  end.

(** One element of [lines]: [(word_idxs, score, attention_history)], every
    row of [attention_history] already flattened as [reshape((-1))] does. *)
Record decoded : Type := Decoded {
  word_idxs : list Z;
  score : Q;
  attention_history : list (list Q)
}.

(** [x[i]] where [x] may be [None]. *)
Definition py_index_opt {A : Type} (l : option (list A)) (i : nat) : result A :=
  match l with
  | Some l => py_index l i
  | None => Raise TypeError
  end.

(** The body of [if word_idx == 3:], up to [words.append(target_word)]:
    the word emitted for an unknown-word position [i] of sentence
    [sent_idx]. *)
Definition unk_target_word (ttable : option (gmap string (list string)))
    (test_source_orig_tok : option (list (list string)))
    (attention_history : list (list Q)) (sent_idx i : nat) : result string :=
  match ttable with
  | None => Ok _UNK
  | Some table =>
      attention_dist ← py_index attention_history i;
      attent_pos ← np_argmax attention_dist;
      source ← py_index_opt test_source_orig_tok sent_idx;
      attent_source_word ← py_index source attent_pos;
      match table !! attent_source_word with
      | Some candidates => py_index candidates 0
      | None => Ok attent_source_word
      end
  end.

(** The loop [for i, word_idx in enumerate(word_idxs)], from position [i]
    on: the list [words]. *)
Fixpoint collect_words (d : list string) (ttable : option (gmap string (list string)))
    (test_source_orig_tok : option (list (list string)))
    (attention_history : list (list Q)) (sent_idx i : nat) (idxs : list Z)
    : result (list string) :=
  match idxs with
  | [] => Ok []
  | word_idx :: idxs' =>
      if (word_idx =? 2)%Z then
        collect_words d ttable test_source_orig_tok attention_history sent_idx (S i) idxs'
      else if (word_idx =? 3)%Z then
        target_word ← unk_target_word ttable test_source_orig_tok attention_history sent_idx i;
        words ← collect_words d ttable test_source_orig_tok attention_history sent_idx (S i) idxs';
        Ok (target_word :: words)
      else
        target_word ← py_getitem d word_idx;
        words ← collect_words d ttable test_source_orig_tok attention_history sent_idx (S i) idxs';
        Ok (target_word :: words)
  end.

(** The text written for one non-null line: [sent + "\n"]. *)
Definition write_line (d : list string) (ttable : option (gmap string (list string)))
    (test_source_orig_tok : option (list (list string))) (sent_idx : nat)
    (line : decoded) : result string :=
  words ← collect_words d ttable test_source_orig_tok (attention_history line)
             sent_idx 0 (word_idxs line);
  Ok (join " " words +:+ String newline EmptyString).

(** The loop [for line in lines] with its counter [sent_idx]: the strings
    written to the destination file, one per [f.write]. *)
Fixpoint ids_to_tokens_loop (d : list string) (ttable : option (gmap string (list string)))
    (test_source_orig_tok : option (list (list string))) (sent_idx : nat)
    (lines : list (option decoded)) : result (list string) :=
  match lines with
  | [] => Ok []
  | None :: lines' =>
      written ← ids_to_tokens_loop d ttable test_source_orig_tok sent_idx lines';
      Ok (String newline EmptyString :: written)
  | Some line :: lines' =>
      sent ← write_line d ttable test_source_orig_tok sent_idx line;
      written ← ids_to_tokens_loop d ttable test_source_orig_tok (S sent_idx) lines';
      Ok (sent :: written)
  end.

(** [ids_to_tokens]; [to_vocab] holds the lines of the vocabulary file. *)
Definition ids_to_tokens (lines : list (option decoded)) (to_vocab : list string)
    (ttable : option (gmap string (list string)))
    (test_source_orig_tok : option (list (list string))) : result (list string) :=
  let d := map (strip str_isspace) to_vocab in
  ids_to_tokens_loop d ttable test_source_orig_tok 0 lines.

(** ** Frequency analyzer *)

(** [int(x)] on a token of an ids line: an optional sign and decimal
    digits, single underscores allowed between digits; [ValueError]
    otherwise.  Digits outside ASCII are not modelled. *)
Fixpoint int_digits (acc : Z) (after_digit : bool) (s : string) : option Z :=
  match s with
  | EmptyString => if after_digit then Some acc else None
  | String c s' =>
      if is_digit c
      then int_digits (10 * acc + Z.of_nat (Ascii.nat_of_ascii c - 48))%Z true s'
      else if Ascii.eqb c (Ascii.ascii_of_nat 95) && after_digit
           then int_digits acc false s'
           else None
  end.

Definition py_int (x : string) : result Z :=
  let parsed :=
    match x with
    | String c x' =>
        if Ascii.eqb c (Ascii.ascii_of_nat 45) then Z.opp <$> int_digits 0 false x'
        else if Ascii.eqb c (Ascii.ascii_of_nat 43) then int_digits 0 false x'
        else int_digits 0 false x
    | EmptyString => None
    end in
  match parsed with
  | Some n => Ok n
  | None => Raise ValueError
  end.

(** [[int(x) for x in line.strip().split()]] *)
Fixpoint parse_ints (tokens : list string) : result (list Z) :=
  match tokens with
  | [] => Ok []
  | x :: tokens' =>
      n ← py_int x;
      ns ← parse_ints tokens';
      Ok (n :: ns)
  end.

Definition line_ids (line : string) : result (list Z) :=
  parse_ints (split str_isspace (strip str_isspace line)).

(** [if word not in d: d[word] = 0] followed by [d[word] += 1] *)
Definition freq_incr (word : Z) (d : gmap Z nat) : gmap Z nat :=
  <[word := S (default 0 (d !! word))]> d.

(** The loop [for line in f] of [frequency] on the dict [d]. *)
Fixpoint frequency_loop (d : gmap Z nat) (lines : list string) : result (gmap Z nat) :=
  match lines with
  | [] => Ok d
  | line :: lines' =>
      words ← line_ids line;
      frequency_loop (foldl (fun d word => freq_incr word d) (freq_incr 2%Z d) words) lines'
  end.

(** [frequency]; [train_file] holds the lines of the ids file. *)
Definition frequency (train_file : list string) : result (gmap Z nat) :=
  frequency_loop (<[2%Z := 0]> ∅) train_file.

(** [sorted(freq)]: the keys in ascending order. *)
Fixpoint insert_asc (x : Z) (l : list Z) : list Z :=
  match l with
  | [] => [x]
  | y :: l' => if (y <? x)%Z then y :: insert_asc x l' else x :: y :: l'
  end.

Definition sorted_keys (freq : gmap Z nat) : list Z :=
  foldr insert_asc [] (map fst (map_to_list freq)).

(** [s*1.0 / freq[i]]: float division, exact on the rationals; dividing by
    zero raises. *)
Definition weight_of (s : nat) (count : nat) : result Q :=
  if count =? 0 then Raise ZeroDivisionError
  else Ok (inject_Z (Z.of_nat s) / inject_Z (Z.of_nat count))%Q.

Fixpoint weight_lines (freq : gmap Z nat) (s : nat) (indexs : list Z) : result (list (Z * Q)) :=
  match indexs with
  | [] => Ok []
  | i :: indexs' =>
      weight ← weight_of s (default 0 (freq !! i));
      rest ← weight_lines freq s indexs';
      Ok ((i, weight) :: rest)
  end.

(** [output_weight]: the lines written to the weight file, each as the
    pair of the id and the weight that [format] prints. *)
Definition output_weight (train_file : list string) : result (list (Z * Q)) :=
  freq ← frequency train_file;
  let s := map_fold (fun _ count total => count + total) 0 freq in
  weight_lines freq s (sorted_keys freq).

(** ** Rare-word reweighting *)

(** A numpy array of ids: its shape and its items in row-major order. *)
Record ndarray : Type := NdArray {
  shape : list nat;
  items : list Z
}.

(** [m,n = new_weights.shape]: unpacking a tuple that has not exactly two
    entries raises [ValueError]. *)
Definition unpack_pair (shape : list nat) : result (nat * nat) :=
  match shape with
  | [m; n] => Ok (m, n)
  | _ => Raise ValueError
  end.

(** The name [xrange].  The module does not define it and imports from
    [six.moves] nothing but [urllib]; Python 3 has no builtin of this name.
    Evaluating it raises [NameError] and yields no value. *)
Definition xrange : result Empty_set := Raise NameError.

(** [check_rare_weights].  [np.zeros_like] gives [new_weights] the shape
    of [target_outputs].  The first statement after the unpacking of the
    shape is [for i in xrange(m)]: its iterable is evaluated before any
    iteration, so the two loops over the columns, which are its body, and
    the [tolist] after it are never reached; [np_dtype] names the element
    type of [new_weights] and nothing else.  The product
    [np.power(alpha_decay, n_decay) * alpha] before it raises nothing, and
    its value is used in the loop body only.  Floating-point values are
    not interpreted: their type is the parameter [float]. *)
Definition check_rare_weights {float : Type} (target_outputs : ndarray)
    (vocab_weights : gmap Z float) (alpha : float) (log_weight : bool)
    (alpha_decay : float) (n_decay : Z) : result (list (list float)) :=
  '(m, n) ← unpack_pair (shape target_outputs);
  xrange ≫= fun rows : Empty_set => match rows with end.

(** ** Encoding a data file *)

(** [str(tok)] for an [int]: its decimal writing. *)
Definition py_str (n : Z) : string := NilZero.string_of_int (Z.to_int n).

(** [data_to_token_ids]: the lines written to the target file for the data
    file of content [data]; [vocabulary_file] is [None] when the path does
    not exist. *)
Definition data_to_token_ids (data : string) (vocabulary_file : option string)
    (tokenizer : option (string -> list string)) (normalize_digits : bool)
    : result (list string) :=
  loaded ← initialize_vocabulary vocabulary_file;
  let vocab := loaded.1 in
  Ok (map (fun line =>
             let token_ids := sentence_to_token_ids line vocab tokenizer normalize_digits in
             join " " (map py_str token_ids) +:+ String newline EmptyString)
          (readlines data)).

(** ** Vocabulary files read as text *)

(** [get_real_vocab_size]: the loop [n += 1] over the lines. *)
Definition get_real_vocab_size (vocab_file : list string) : nat :=
  foldl (fun n _ => n + 1) 0 vocab_file.

(** [load_index2word]: the loop on the pair of the dict [d] and the
    counter [i]. *)
Definition load_index2word (vocab_file : list string) : gmap nat string :=
  (foldl (fun '(d, i) line => (<[i := strip str_isspace line]> d, i + 1))
         (∅, 0) vocab_file).1.

(** [load_word2index] *)
Definition load_word2index (vocab_file : list string) : gmap string nat :=
  (foldl (fun '(d, i) line => (<[strip str_isspace line := i]> d, i + 1))
         (∅, 0) vocab_file).1.

(** [to_vocab[x] for x in ids], evaluated from left to right. *)
Fixpoint lookup_words (to_vocab : list string) (ids : list Z) : result (list string) :=
  match ids with
  | [] => Ok []
  | x :: ids' =>
      w ← py_getitem to_vocab x;
      ws ← lookup_words to_vocab ids';
      Ok (w :: ws)
  end.

(** [id_to_tokens]: the words of [line[:-1]] joined by spaces. *)
Definition id_to_tokens (line : list Z) (to_vocab : list string) : result string :=
  ws ← lookup_words to_vocab (py_slice_to line (-1));
  Ok (join " " ws).

(** [load_data_orig_reverse]: [line.split()[::-1]] for every line. *)
Definition load_data_orig_reverse (lines : list string) : list (list string) :=
  map (fun line => rev (split str_isspace line)) lines.

(** * Specification vocabulary

    The notions in which the properties are stated, and the sample inputs
    on which they are evaluated. *)

(** ** Encoder and decoder *)

(** The key looked up for a token. *)
Definition lookup_key (normalize_digits : bool) (w : string) : string :=
  if normalize_digits then normalize_digits_sub w else w.

(** A vocabulary file whose lines 5, 7 and 9 are [a], [b] and [c]. *)
Definition abc_vocab : list string :=
  map (fun w => w +:+ String newline EmptyString)
      ["_PAD"; "_GO"; "_EOS"; "_UNK"; "w4"; "a"; "w6"; "b"; "w8"; "c"].

(** A decoded line with the end symbol before its last id. *)
Definition eos_inside : decoded :=
  {| word_idxs := [5; 7; EOS_ID; 9]%Z; score := 0; attention_history := [] |}.

(** [p] is the first position of the maximum of [row]. *)
Definition first_argmax (row : list Q) (p : nat) : Prop :=
  ∃ m, row !! p = Some m ∧
       (∀ j x, row !! j = Some x → (x <= m)%Q) ∧
       (∀ j x, j < p → row !! j = Some x → (x < m)%Q).

(** One attention row over three source tokens, and a translation table. *)
Definition sample_attention : list (list Q) := [[1 # 10; 8 # 10; 1 # 10]%Q].
Definition sample_source : list (list string) := [["x"; "y"; "z"]].
Definition sample_ttable : gmap string (list string) := {[ "y" := ["z2"] ]}.

(** A decoded line of one unknown word. *)
Definition unk_line : decoded :=
  {| word_idxs := [UNK_ID]; score := 0; attention_history := sample_attention |}.

(** The word that stands for an unknown word at a position whose
    attention row is [row], in a line whose reversed source tokens are
    [source]: [_UNK] without a translation table; with one, where [p] is
    the first position of the maximum of the row and [s] the source token
    at [p], the first candidate of the table for [s], or [s] itself when
    the table has no entry for it. *)
Definition unk_word (ttable : option (gmap string (list string)))
    (row : option (list Q)) (source : option (list string)) (w : string) : Prop :=
  match ttable with
  | None => w = _UNK
  | Some table =>
      ∃ r p tokens s,
        row = Some r ∧ first_argmax r p ∧ source = Some tokens ∧ tokens !! p = Some s ∧
        match table !! s with
        | Some candidates => candidates !! 0 = Some w
        | None => w = s
        end
  end.

(** The reversed source tokens of two sentences, a translation table for
    a token of the second one, and a decoded line with an unknown word at
    its position 1, whose attention row has its maximum at position 1. *)
Definition two_sources : list (list string) :=
  [["x0"; "y0"; "z0"]; ["x1"; "y1"; "z1"]].
Definition y1_ttable : gmap string (list string) := {[ "y1" := ["z2"] ]}.
Definition unk_inside : decoded :=
  {| word_idxs := [5; UNK_ID; 7]%Z; score := 0;
     attention_history := [[1; 0; 0]; [1 # 10; 8 # 10; 1 # 10]; [0; 0; 1]]%Q |}.

(** The number of non-null lines. *)
Fixpoint non_null (lines : list (option decoded)) : nat :=
  match lines with
  | [] => 0
  | Some _ :: lines' => S (non_null lines')
  | None :: lines' => non_null lines'
  end.

(** ** Vocabulary *)

(** [a] stands before [b] in [l]. *)
Definition before {A : Type} (l : list A) (a b : A) : Prop :=
  ∃ l1 l2 l3, l = l1 ++ a :: l2 ++ b :: l3.

(** The order of a list sorted by descending [key]: greater key first,
    and among equal keys the order of the list [l] that was sorted. *)
Definition ranked {A : Type} (key : A -> nat) (l : list A) (a b : A) : Prop :=
  key b < key a ∨ (key a = key b ∧ before l a b).

(** The words of the corpus in one scan from left to right. *)
Definition corpus_words (tokenizer : option (string -> list string))
    (normalize_digits : bool) (data : string) : list string :=
  concat (map (line_words tokenizer normalize_digits) (readlines data)).

(** The number of occurrences of [a] in [ws]: its corpus count. *)
Fixpoint occurrences (a : string) (ws : list string) : nat :=
  match ws with
  | [] => 0
  | w :: ws' => (if String.eqb w a then 1 else 0) + occurrences a ws'
  end.

(** The number of distinct words of [ws]. *)
Definition distinct (ws : list string) : nat := length (remove_dups ws).

(** [a] is seen before [b] is: [a] occurs at a position up to which [b]
    does not occur. *)
Definition first_seen_before (ws : list string) (a b : string) : Prop :=
  ∃ i, ws !! i = Some a ∧ b ∉ take (S i) ws.

(** The frequency dict after the words [ws]. *)
Definition count_words (ws : list string) : pydict nat :=
  foldl (fun vocab word => vocab_count word vocab) [] ws.

(** The list before the cut: the start symbols and the ranked words. *)
Definition full_vocab_list (tokenizer : option (string -> list string))
    (normalize_digits : bool) (data : string) : list string :=
  let vocab := count_words (corpus_words tokenizer normalize_digits data) in
  _START_VOCAB ++ sorted_desc (vocab_get vocab) (dict_keys vocab).

(** The corpus of the lines [a] and [b]. *)
Definition two_line_corpus : string :=
  "a" +:+ String newline ("b" +:+ String newline EmptyString).

(** A corpus of two lines. *)
Definition small_corpus : string :=
  "b a a" +:+ String newline ("c b c 12 13" +:+ String newline EmptyString).

(** No character of [w] is whitespace. *)
Fixpoint no_space (w : string) : bool :=
  match w with
  | EmptyString => true
  | String c w' => negb (bytes_isspace c) && no_space w'
  end.

(** The mapping and the list are inverses of each other. *)
Definition exact_inverses (vocab : gmap string Z) (rev_vocab : list string) : Prop :=
  ∀ i t, rev_vocab !! i = Some t ↔ vocab !! t = Some (Z.of_nat i).

(** ** Frequencies and weights *)

(** The ids of every line of the ids file. *)
Fixpoint parse_lines (lines : list string) : result (list (list Z)) :=
  match lines with
  | [] => Ok []
  | line :: lines' =>
      ids ← line_ids line;
      idss ← parse_lines lines';
      Ok (ids :: idss)
  end.

(** The number of occurrences of [id] in [ids]. *)
Fixpoint id_occurrences (id : Z) (ids : list Z) : nat :=
  match ids with
  | [] => 0
  | x :: ids' => (if (x =? id)%Z then 1 else 0) + id_occurrences id ids'
  end.

(** The count of [id]: its occurrences in the file, and for the end
    symbol one more per line. *)
Definition id_count (idss : list (list Z)) (id : Z) : nat :=
  id_occurrences id (concat idss) + (if (id =? 2)%Z then length idss else 0).

(** The sum of all counts. *)
Definition total_count (idss : list (list Z)) : nat :=
  length (concat idss) + length idss.

(** The loops of [frequency] on lines that are already parsed. *)
Definition count_ids (d : gmap Z nat) (idss : list (list Z)) : gmap Z nat :=
  foldl (fun d words => foldl (fun d word => freq_incr word d) (freq_incr 2%Z d) words)
        d idss.

(** [sum(freq.values())] *)
Definition freq_total (freq : gmap Z nat) : nat :=
  map_fold (fun _ count total => count + total) 0 freq.

(** The value that [d.get(id, 0)] would give. *)
Definition get0 (d : gmap Z nat) (id : Z) : nat := default 0 (d !! id).

(** The weight written for a count. *)
Definition weight_value (s count : nat) : Q :=
  (inject_Z (Z.of_nat s) / inject_Z (Z.of_nat count))%Q.

(** The ids file of the single line [3 3 5]. *)
Definition one_line_ids_file : list string := ["3 3 5" +:+ String newline EmptyString].


(** The batch of the single row [7, 9]. *)
Definition one_row_batch : ndarray := {| shape := [1; 2]; items := [7; 9]%Z |}.

(** A weight table for the id 7, and one in which its weight is 1, whose
    logarithm is 0. *)
Definition sample_weights : gmap Z Q := {[ 7%Z := 2%Q ]}.

(** ** Tokens *)

(** No character of [w] is whitespace for [isspace]. *)
Fixpoint free_of (isspace : ascii -> bool) (w : string) : bool :=
  match w with
  | EmptyString => true
  | String c w' => negb (isspace c) && free_of isspace w'
  end.

(** A token: a non-empty string without whitespace. *)
Definition is_token (isspace : ascii -> bool) (w : string) : Prop :=
  w ≠ EmptyString ∧ free_of isspace w = true.

(** ** Decimal writing *)

(** The number written by the digits [d] after the digits of value [acc]. *)
Fixpoint uint_value (acc : Z) (d : Decimal.uint) : Z :=
  match d with
  | Decimal.Nil => acc
  | Decimal.D0 d' => uint_value (10 * acc + 0) d'
  | Decimal.D1 d' => uint_value (10 * acc + 1) d'
  | Decimal.D2 d' => uint_value (10 * acc + 2) d'
  | Decimal.D3 d' => uint_value (10 * acc + 3) d'
  | Decimal.D4 d' => uint_value (10 * acc + 4) d'
  | Decimal.D5 d' => uint_value (10 * acc + 5) d'
  | Decimal.D6 d' => uint_value (10 * acc + 6) d'
  | Decimal.D7 d' => uint_value (10 * acc + 7) d'
  | Decimal.D8 d' => uint_value (10 * acc + 8) d'
  | Decimal.D9 d' => uint_value (10 * acc + 9) d'
  end.

(** ** Decoded lines *)

(** [id] indexes a list of [n] entries, from the front or from the end. *)
Definition in_vocab_range (n : nat) (id : Z) : Prop :=
  (- Z.of_nat n ≤ id < Z.of_nat n)%Z.

(** An id that the decoder can print without a translation table. *)
Definition printable_id (n : nat) (id : Z) : Prop :=
  id = 2%Z ∨ id = 3%Z ∨ in_vocab_range n id.

(** Every id of every non-null line satisfies [P]. *)
Definition all_ids (P : Z -> Prop) (lines : list (option decoded)) : Prop :=
  Forall (fun line => match line with
                      | Some l => Forall P (word_idxs l)
                      | None => True
                      end) lines.

(** The string ends with a newline. *)
Definition ends_with_newline (s : string) : Prop :=
  ∃ body, s = body +:+ String newline EmptyString.

(** * Properties *)

(** [H] states that a word is a member of a list of other literal words. *)
Ltac absurd_member H :=
  repeat (apply elem_of_cons in H as [H|H]; [discriminate H|]); inversion H.

(** ** The [result] monad *)

Lemma bind_Ok {A B : Type} (f : A -> result B) (a : A) : (Ok a ≫= f) = f a.
Proof. reflexivity. Qed.

Lemma bind_Raise {A B : Type} (f : A -> result B) (e : exn) : (Raise e ≫= f) = Raise e.
Proof. reflexivity. Qed.

Lemma bind_assoc_result {A B C : Type} (m : result A) (f : A -> result B) (g : B -> result C) :
  ((m ≫= f) ≫= g) = (m ≫= fun a => f a ≫= g).
Proof. destruct m; reflexivity. Qed.

(** ** Encoder *)

Lemma sentence_to_token_ids_map sentence vocabulary tokenizer normalize_digits :
  sentence_to_token_ids sentence vocabulary tokenizer normalize_digits =
  map (fun w => default UNK_ID (vocabulary !! lookup_key normalize_digits w))
      (tokenize tokenizer sentence).
Proof. unfold sentence_to_token_ids, lookup_key. destruct normalize_digits; reflexivity. Qed.

(** C8: [sentence_to_token_ids] returns, for every line, vocabulary and
    tokenizer, a list as long as the tokenizer's output, whose entry for a
    token is the id the vocabulary gives it, and [UNK_ID] when the
    vocabulary has no entry for the token. *)
Theorem sentence_to_token_ids_total (sentence : string) (vocabulary : gmap string Z)
    (tokenizer : option (string -> list string)) (normalize_digits : bool) :
  let words := tokenize tokenizer sentence in
  let ids := sentence_to_token_ids sentence vocabulary tokenizer normalize_digits in
  length ids = length words ∧
  (∀ i w, words !! i = Some w →
     match vocabulary !! lookup_key normalize_digits w with
     | Some id => ids !! i = Some id
     | None => ids !! i = Some UNK_ID
     end).
Proof.
  intros words ids. subst words ids. rewrite sentence_to_token_ids_map. split.
  - apply length_map.
  - intros i w Hw. rewrite list_lookup_fmap, Hw. simpl.
    destruct (vocabulary !! lookup_key normalize_digits w); reflexivity.
Qed.

Example sentence_to_token_ids_unknown :
  sentence_to_token_ids "I have a dog" (<["I" := 1%Z]> (<["a" := 4%Z]> ∅)) None false
  = [1%Z; 3%Z; 4%Z; 3%Z].
Proof. vm_compute. reflexivity. Qed.

(** ** Decoder *)

Section collect.
Variable d : list string.
Variable ttable : option (gmap string (list string)).
Variable test_source_orig_tok : option (list (list string)).
Variable attention_history : list (list Q).
Variable sent_idx : nat.

Let collect := collect_words d ttable test_source_orig_tok attention_history sent_idx.

(** The words of a sequence of ids are the words of its first part
    followed by the words of the rest, read at the shifted positions. *)
Lemma collect_words_app (pre post : list Z) (i : nat) :
  collect i (pre ++ post) =
  (ws1 ← collect i pre; ws2 ← collect (i + length pre) post; Ok (ws1 ++ ws2)).
Proof.
  subst collect. revert i. induction pre as [|x pre IH]; intros i; simpl.
  - rewrite Nat.add_0_r. destruct (collect_words _ _ _ _ _ i post); reflexivity.
  - replace (i + S (length pre)) with (S i + length pre) by lia.
    destruct (x =? 2)%Z; [apply IH|].
    destruct (x =? 3)%Z.
    + destruct (unk_target_word _ _ _ _ i); simpl; [|reflexivity].
      rewrite IH. destruct (collect_words _ _ _ _ _ (S i) pre); simpl; [|reflexivity].
      destruct (collect_words _ _ _ _ _ _ post); reflexivity.
    + destruct (py_getitem d x); simpl; [|reflexivity].
      rewrite IH. destruct (collect_words _ _ _ _ _ (S i) pre); simpl; [|reflexivity].
      destruct (collect_words _ _ _ _ _ _ post); reflexivity.
Qed.

Lemma collect_words_skip_eos (pre post : list Z) (i : nat) :
  collect i (pre ++ EOS_ID :: post) =
  (ws1 ← collect i pre; ws2 ← collect (S (i + length pre)) post; Ok (ws1 ++ ws2)).
Proof. rewrite collect_words_app. reflexivity. Qed.
End collect.

(** C1, as the claim states it, fails: the ids [5, 7, EOS_ID, 9] are not
    written as the line "a b"; the word of the position after the end
    symbol is written too. *)
Lemma ids_to_tokens_eos_not_truncated :
  ids_to_tokens [Some eos_inside] abc_vocab None None
    = Ok ["a b c" +:+ String newline EmptyString] ∧
  ids_to_tokens [Some eos_inside] abc_vocab None None
    ≠ Ok ["a b" +:+ String newline EmptyString].
Proof. split; [vm_compute; reflexivity | vm_compute; discriminate]. Qed.

(** C1, amended: a position whose id is [EOS_ID] emits no word and the
    positions after it are still processed: the words of a line are those
    before the end symbol followed by those after it; the ids
    [5, 7, EOS_ID, 9] are written as the line "a b c". *)
Theorem ids_to_tokens_eos_skipped (d : list string)
    (ttable : option (gmap string (list string)))
    (test_source_orig_tok : option (list (list string)))
    (attention_history : list (list Q)) (sent_idx i : nat) (pre post : list Z) :
  collect_words d ttable test_source_orig_tok attention_history sent_idx i
    (pre ++ EOS_ID :: post) =
  (ws1 ← collect_words d ttable test_source_orig_tok attention_history sent_idx i pre;
   ws2 ← collect_words d ttable test_source_orig_tok attention_history sent_idx
           (S (i + length pre)) post;
   Ok (ws1 ++ ws2)) ∧
  ids_to_tokens [Some eos_inside] abc_vocab None None
  = Ok ["a b c" +:+ String newline EmptyString].
Proof. split; [apply collect_words_skip_eos|vm_compute; reflexivity]. Qed.

(** ** Attention argmax *)

Lemma first_argmax_unique (row : list Q) (p q : nat) :
  first_argmax row p → first_argmax row q → p = q.
Proof.
  intros (m & Hp & Hmax & Hfirst) (m' & Hq & Hmax' & Hfirst').
  destruct (lt_eq_lt_dec p q) as [[Hlt|Heq]|Hgt]; [|assumption|].
  - pose proof (Hfirst' _ _ Hlt Hp). pose proof (Hmax _ _ Hq).
    exfalso. eapply Qlt_not_le; eassumption.
  - pose proof (Hfirst _ _ Hgt Hq). pose proof (Hmax' _ _ Hp).
    exfalso. eapply Qlt_not_le; eassumption.
Qed.

Lemma argmax_from_first (xs seen : list Q) (best_pos : nat) (best : Q) :
  seen !! best_pos = Some best →
  (∀ j x, seen !! j = Some x → (x <= best)%Q) →
  (∀ j x, j < best_pos → seen !! j = Some x → (x < best)%Q) →
  first_argmax (seen ++ xs) (argmax_from best_pos best (length seen) xs).
Proof.
  revert seen best_pos best.
  induction xs as [|x xs IH]; intros seen best_pos best Hbest Hmax Hfirst; simpl.
  - rewrite app_nil_r. exists best. auto.
  - replace (seen ++ x :: xs) with ((seen ++ [x]) ++ xs) by (rewrite <- app_assoc; reflexivity).
    replace (S (length seen)) with (length (seen ++ [x])) by (rewrite length_app; simpl; lia).
    destruct (Qle_bool x best) eqn:Hle.
    + apply Qle_bool_iff in Hle. apply IH.
      * rewrite lookup_app_l; [assumption|]. eapply lookup_lt_Some; eassumption.
      * intros j y Hy. apply lookup_app_Some in Hy as [Hy|[_ Hy]]; [eauto|].
        apply list_lookup_singleton_Some in Hy as [_ <-]. assumption.
      * intros j y Hj Hy. apply lookup_app_Some in Hy as [Hy|[Hge _]]; [eauto|].
        apply lookup_lt_Some in Hbest. lia.
    + assert (best < x)%Q as Hlt.
      { apply Qnot_le_lt. intros Hc. apply Qle_bool_iff in Hc. congruence. }
      apply IH.
      * rewrite lookup_app_r by lia. rewrite Nat.sub_diag. reflexivity.
      * intros j y Hy. apply lookup_app_Some in Hy as [Hy|[_ Hy]].
        -- apply Qlt_le_weak. eapply Qle_lt_trans; [eapply Hmax; eassumption|assumption].
        -- apply list_lookup_singleton_Some in Hy as [_ <-]. apply Qle_refl.
      * intros j y Hj Hy. apply lookup_app_Some in Hy as [Hy|[Hge _]]; [|lia].
        eapply Qle_lt_trans; [eapply Hmax; eassumption|assumption].
Qed.

Lemma np_argmax_first (row : list Q) (p : nat) :
  first_argmax row p → np_argmax row = Ok p.
Proof.
  intros Hp. destruct row as [|x xs].
  - destruct Hp as (m & Hm & _). discriminate.
  - simpl. f_equal. eapply first_argmax_unique; [|exact Hp].
    apply (argmax_from_first xs [x] 0 x).
    + reflexivity.
    + intros [|j] y Hy; simpl in Hy; [|discriminate].
      injection Hy as <-. apply Qle_refl.
    + intros j y Hj. lia.
Qed.

Lemma np_argmax_Ok (row : list Q) (p : nat) :
  np_argmax row = Ok p → first_argmax row p.
Proof.
  destruct row as [|x xs]; simpl; [discriminate|]. intros [= <-].
  apply (argmax_from_first xs [x] 0 x).
  - reflexivity.
  - intros [|j] y Hy; simpl in Hy; [|discriminate].
    injection Hy as <-. apply Qle_refl.
  - intros j y Hj. lia.
Qed.

(** The word of an unknown-word position is the one that [unk_word]
    describes. *)
Lemma unk_target_word_Ok ttable src (attention : list (list Q)) (n i : nat) (w : string) :
  unk_target_word ttable src attention n i = Ok w →
  unk_word ttable (attention !! i) (src ≫= (.!! n)) w.
Proof.
  unfold unk_target_word, unk_word.
  destruct ttable as [table|]; [|intros [= <-]; reflexivity].
  unfold py_index_opt, py_index.
  destruct (attention !! i) as [row|]; simpl; [|discriminate].
  destruct (np_argmax row) as [p|e] eqn:Hp; simpl; [|discriminate].
  destruct src as [sources|]; simpl; [|discriminate].
  destruct (sources !! n) as [tokens|]; simpl; [|discriminate].
  destruct (tokens !! p) as [s|] eqn:Hs; simpl; [|discriminate].
  intros Hw. exists row, p, tokens, s.
  split; [reflexivity|]. split; [apply np_argmax_Ok, Hp|].
  split; [reflexivity|]. split; [exact Hs|].
  destruct (table !! s) as [candidates|]; [|injection Hw as <-; reflexivity].
  destruct (candidates !! 0); [injection Hw as ->; reflexivity|discriminate].
Qed.

(** Conversely, a position for which [unk_word] describes a word is
    given this word. *)
Lemma unk_target_word_of_unk_word ttable src (attention : list (list Q)) (n i : nat)
    (w : string) :
  unk_word ttable (attention !! i) (src ≫= (.!! n)) w →
  unk_target_word ttable src attention n i = Ok w.
Proof.
  unfold unk_word, unk_target_word.
  destruct ttable as [table|]; [|intros ->; reflexivity].
  intros (row & p & tokens & s & Hrow & Hp & Hsrc & Hs & Hw).
  destruct src as [sources|]; [|discriminate]. simpl in Hsrc.
  unfold py_index_opt, py_index. rewrite Hrow. simpl.
  rewrite (np_argmax_first _ _ Hp). simpl. rewrite Hsrc. simpl. rewrite Hs. simpl.
  destruct (table !! s) as [candidates|]; [rewrite Hw|rewrite Hw]; reflexivity.
Qed.

(** A line of one unknown word is written as the word that [unk_word]
    describes for its position 0 and sentence 0. *)
Lemma ids_to_tokens_single_unk (to_vocab : list string)
    (ttable : option (gmap string (list string)))
    (test_source_orig_tok : option (list (list string)))
    (sc : Q) (attention : list (list Q)) (w : string) :
  unk_word ttable (attention !! 0) (test_source_orig_tok ≫= (.!! 0)) w →
  ids_to_tokens [Some {| word_idxs := [UNK_ID]; score := sc;
                         attention_history := attention |}]
                to_vocab ttable test_source_orig_tok
  = Ok [w +:+ String newline EmptyString].
Proof.
  intros Hw. apply unk_target_word_of_unk_word in Hw.
  unfold ids_to_tokens. cbn [ids_to_tokens_loop]. unfold write_line.
  cbn [word_idxs attention_history collect_words].
  change (UNK_ID =? 2)%Z with false. change (UNK_ID =? 3)%Z with true. cbv iota.
  rewrite Hw. reflexivity.
Qed.

(** [unk_word] describes one word. *)
Lemma unk_word_unique ttable row source (w w' : string) :
  unk_word ttable row source w → unk_word ttable row source w' → w = w'.
Proof.
  unfold unk_word. destruct ttable as [table|]; [|congruence].
  intros (r & p & tokens & s & -> & Hp & -> & Hs & Hw)
         (r' & p' & tokens' & s' & [= <-] & Hp' & [= <-] & Hs' & Hw').
  pose proof (first_argmax_unique _ _ _ Hp Hp') as <-.
  rewrite Hs in Hs'. injection Hs' as <-.
  destruct (table !! s); congruence.
Qed.

Example ids_to_tokens_unk_literal :
  ids_to_tokens [Some unk_line] abc_vocab None (Some sample_source)
  = Ok ["_UNK" +:+ String newline EmptyString].
Proof. vm_compute. reflexivity. Qed.

Example ids_to_tokens_unk_translated :
  ids_to_tokens [Some unk_line] abc_vocab (Some sample_ttable) (Some sample_source)
  = Ok ["z2" +:+ String newline EmptyString].
Proof. vm_compute. reflexivity. Qed.

Example ids_to_tokens_unk_copied :
  ids_to_tokens [Some unk_line] abc_vocab (Some ∅) (Some sample_source)
  = Ok ["y" +:+ String newline EmptyString].
Proof. vm_compute. reflexivity. Qed.

Example unk_target_word_no_candidate :
  unk_target_word (Some {[ "y" := [] ]}) (Some sample_source) sample_attention 0 0
  = Raise IndexError.
Proof. vm_compute. reflexivity. Qed.

(** ** The sentence counter *)

Lemma ids_to_tokens_loop_app d ttable src (pre rest : list (option decoded)) (k : nat) :
  ids_to_tokens_loop d ttable src k (pre ++ rest) =
  (w1 ← ids_to_tokens_loop d ttable src k pre;
   w2 ← ids_to_tokens_loop d ttable src (k + non_null pre) rest;
   Ok (w1 ++ w2)).
Proof.
  revert k. induction pre as [|[line|] pre IH]; intros k; simpl.
  - rewrite Nat.add_0_r.
    destruct (ids_to_tokens_loop d ttable src k rest); reflexivity.
  - destruct (write_line d ttable src k line); simpl; [|reflexivity].
    rewrite IH.
    replace (k + S (non_null pre)) with (S k + non_null pre) by lia.
    destruct (ids_to_tokens_loop d ttable src (S k) pre); simpl; [|reflexivity].
    destruct (ids_to_tokens_loop d ttable src _ rest); reflexivity.
  - rewrite IH.
    destruct (ids_to_tokens_loop d ttable src k pre); simpl; [|reflexivity].
    destruct (ids_to_tokens_loop d ttable src _ rest); reflexivity.
Qed.

Lemma ids_to_tokens_loop_written (d : list string) ttable src (k : nat)
    (lines : list (option decoded)) (written : list string) :
  ids_to_tokens_loop d ttable src k lines = Ok written →
  length written = length lines ∧
  Forall ends_with_newline written ∧
  (∀ i, lines !! i = Some None → written !! i = Some (String newline EmptyString)).
Proof.
  revert k written. induction lines as [|[line|] lines IH]; intros k written; simpl.
  - intros [= <-]. split; [reflexivity|]. split; [constructor|]. intros i H. discriminate H.
  - unfold write_line.
    destruct (collect_words d ttable src (attention_history line) k 0 (word_idxs line))
      as [ws|e]; simpl; [|discriminate].
    destruct (ids_to_tokens_loop d ttable src (S k) lines) as [rest|e] eqn:Hrest; simpl;
      [|discriminate].
    intros [= <-]. destruct (IH _ _ Hrest) as (Hlen & Hnl & Hnull).
    split; [simpl; congruence|]. split.
    + constructor; [eexists; reflexivity|exact Hnl].
    + intros [|i] Hi; [discriminate Hi|]. apply Hnull, Hi.
  - destruct (ids_to_tokens_loop d ttable src k lines) as [rest|e] eqn:Hrest; simpl;
      [|discriminate].
    intros [= <-]. destruct (IH _ _ Hrest) as (Hlen & Hnl & Hnull).
    split; [simpl; congruence|]. split.
    + constructor; [exists EmptyString; reflexivity|exact Hnl].
    + intros [|i] Hi; [reflexivity|]. apply Hnull, Hi.
Qed.

(** The line after the lines [before] is written with the counter at the
    number of non-null lines among them. *)
Lemma ids_to_tokens_loop_line d ttable src (k : nat)
    (before after : list (option decoded)) (line : decoded) (written : list string) :
  ids_to_tokens_loop d ttable src k (before ++ Some line :: after) = Ok written →
  ∃ sent, written !! length before = Some sent ∧
          write_line d ttable src (k + non_null before) line = Ok sent.
Proof.
  rewrite ids_to_tokens_loop_app.
  destruct (ids_to_tokens_loop d ttable src k before) as [w1|e] eqn:Hbefore; simpl;
    [|discriminate].
  destruct (write_line d ttable src (k + non_null before) line) as [sent|e]; simpl;
    [|discriminate].
  destruct (ids_to_tokens_loop d ttable src (S (k + non_null before)) after) as [w2|e];
    simpl; [|discriminate].
  intros [= <-]. exists sent. split; [|reflexivity].
  apply ids_to_tokens_loop_written in Hbefore as (Hlen & _).
  rewrite lookup_app_r by lia. rewrite Hlen, Nat.sub_diag. reflexivity.
Qed.

(** Sentence [n] of the source tokens is sentence 0 of the source tokens
    without their first [n] sentences. *)
Lemma unk_target_word_shift ttable src (attention : list (list Q)) (n i : nat) :
  unk_target_word ttable src attention n i
  = unk_target_word ttable (drop n <$> src) attention 0 i.
Proof.
  unfold unk_target_word. destruct ttable as [table|]; [|reflexivity].
  destruct (py_index attention i) as [row|e]; simpl; [|reflexivity].
  destruct (np_argmax row) as [p|e]; simpl; [|reflexivity].
  destruct src as [sources|]; simpl; [|reflexivity].
  unfold py_index. rewrite lookup_drop, Nat.add_0_r. reflexivity.
Qed.

Lemma collect_words_shift d ttable src (attention : list (list Q)) (n i : nat)
    (idxs : list Z) :
  collect_words d ttable src attention n i idxs
  = collect_words d ttable (drop n <$> src) attention 0 i idxs.
Proof.
  revert i. induction idxs as [|id idxs IH]; intros i; simpl; [reflexivity|].
  rewrite IH, unk_target_word_shift. reflexivity.
Qed.

(** The words of a line around an unknown-word position. *)
Lemma collect_words_around_unk d ttable src (attention : list (list Q)) (n : nat)
    (pre post : list Z) (words : list string) :
  collect_words d ttable src attention n 0 (pre ++ UNK_ID :: post) = Ok words →
  ∃ wpre w wpost,
    words = wpre ++ w :: wpost ∧
    collect_words d ttable src attention n 0 pre = Ok wpre ∧
    unk_target_word ttable src attention n (length pre) = Ok w ∧
    collect_words d ttable src attention n (S (length pre)) post = Ok wpost.
Proof.
  rewrite collect_words_app. cbn [collect_words]. change (UNK_ID =? 2)%Z with false.
  change (UNK_ID =? 3)%Z with true. cbv iota. change (0 + length pre) with (length pre).
  destruct (collect_words d ttable src attention n 0 pre) as [wpre|e];
    [|discriminate].
  destruct (unk_target_word ttable src attention n (length pre)) as [w|e];
    [|discriminate].
  destruct (collect_words d ttable src attention n (S (length pre)) post) as [wpost|e];
    [|discriminate].
  intros [= <-]. exists wpre, w, wpost. auto.
Qed.

(** C9: the word written for a position decoded as [UNK_ID].  When
    [ids_to_tokens] has written its lines, the line of a decoded line with
    the id 3 at a position holds, between the words of the positions
    before and the words of the positions after, one word for this
    position: [_UNK] without a translation table; with one, where [p] is
    the first position of the maximum of the attention row of this
    position and [s] the token at [p] in the reversed source tokens of the
    line's sentence, the first candidate of the table for [s] when [s] is
    a key, and [s] itself otherwise.  No other word fits this
    description. *)
Theorem ids_to_tokens_unk_word (before after : list (option decoded)) (pre post : list Z)
    (sc : Q) (attention : list (list Q)) (to_vocab : list string)
    (ttable : option (gmap string (list string)))
    (test_source_orig_tok : option (list (list string))) (written : list string) :
  ids_to_tokens
    (before ++ Some {| word_idxs := pre ++ UNK_ID :: post; score := sc;
                       attention_history := attention |} :: after)
    to_vocab ttable test_source_orig_tok = Ok written →
  let d := map (strip str_isspace) to_vocab in
  let n := non_null before in
  ∃ wpre w wpost,
    written !! length before
    = Some (join " " (wpre ++ w :: wpost) +:+ String newline EmptyString) ∧
    collect_words d ttable test_source_orig_tok attention n 0 pre = Ok wpre ∧
    collect_words d ttable test_source_orig_tok attention n (S (length pre)) post
    = Ok wpost ∧
    unk_word ttable (attention !! length pre) (test_source_orig_tok ≫= (.!! n)) w ∧
    (∀ w', unk_word ttable (attention !! length pre) (test_source_orig_tok ≫= (.!! n)) w' →
           w' = w).
Proof.
  intros Hrun d n. unfold ids_to_tokens in Hrun. fold d in Hrun.
  apply ids_to_tokens_loop_line in Hrun as (sent & Hsent & Hline).
  change (0 + non_null before) with n in Hline.
  unfold write_line in Hline. cbn [word_idxs attention_history] in Hline.
  destruct (collect_words d ttable test_source_orig_tok attention n 0
              (pre ++ UNK_ID :: post)) as [words|e] eqn:Hwords; [|discriminate].
  injection Hline as <-.
  apply collect_words_around_unk in Hwords as (wpre & w & wpost & -> & Hpre & Hw & Hpost).
  apply unk_target_word_Ok in Hw.
  exists wpre, w, wpost. split; [exact Hsent|]. do 2 (split; [assumption|]).
  split; [exact Hw|]. intros w' Hw'. eapply unk_word_unique; eassumption.
Qed.

Lemma ids_to_tokens_unk_word_witness :
  let d := map (strip str_isspace) abc_vocab in
  let n := non_null [Some eos_inside; None] in
  ∃ wpre w wpost,
    ["a b c" +:+ String newline EmptyString; String newline EmptyString;
     "a z2 b" +:+ String newline EmptyString] !! length [Some eos_inside; None]
    = Some (join " " (wpre ++ w :: wpost) +:+ String newline EmptyString) ∧
    collect_words d (Some y1_ttable) (Some two_sources) (attention_history unk_inside)
                  n 0 [5%Z] = Ok wpre ∧
    collect_words d (Some y1_ttable) (Some two_sources) (attention_history unk_inside)
                  n (S (length [5%Z])) [7%Z] = Ok wpost ∧
    unk_word (Some y1_ttable) (attention_history unk_inside !! length [5%Z])
             (Some two_sources ≫= (.!! n)) w ∧
    (∀ w', unk_word (Some y1_ttable) (attention_history unk_inside !! length [5%Z])
                    (Some two_sources ≫= (.!! n)) w' → w' = w).
Proof.
  apply (ids_to_tokens_unk_word [Some eos_inside; None] [] [5%Z] [7%Z] 0%Q
           (attention_history unk_inside) abc_vocab (Some y1_ttable) (Some two_sources)).
  vm_compute. reflexivity.
Defined.

(** The unknown word at position 1 of the third input line, the second
    non-null one: its attention row 1 has its maximum at position 1, and
    the token there in the source sentence 1 is translated. *)
Example ids_to_tokens_unk_inside :
  ids_to_tokens [Some eos_inside; None; Some unk_inside] abc_vocab
                (Some y1_ttable) (Some two_sources)
  = Ok ["a b c" +:+ String newline EmptyString; String newline EmptyString;
        "a z2 b" +:+ String newline EmptyString] ∧
  ids_to_tokens [Some eos_inside; None; Some unk_inside] abc_vocab
                (Some ∅) (Some two_sources)
  = Ok ["a b c" +:+ String newline EmptyString; String newline EmptyString;
        "a y1 b" +:+ String newline EmptyString] ∧
  ids_to_tokens [Some eos_inside; None; Some unk_inside] abc_vocab None None
  = Ok ["a b c" +:+ String newline EmptyString; String newline EmptyString;
        "a _UNK b" +:+ String newline EmptyString].
Proof. vm_compute. auto. Qed.

(** C10: the sentence index counts the non-null lines processed so far.
    When [ids_to_tokens] has written its lines, every null line among the
    lines [before] has given an empty line, and the non-null line after
    them is written as the only line of a run of its own is written in
    which the source sentence of index [n], the number of non-null lines
    of [before], comes first, whatever the line's own position
    [length before] in the input.  So with a translation table, an unknown
    word of the line takes its replacement from the tokens of source
    sentence [n]: the token at the first position of the maximum of the
    attention row of the word's position. *)
Theorem ids_to_tokens_sent_idx (before after : list (option decoded)) (line : decoded)
    (to_vocab : list string) (ttable : option (gmap string (list string)))
    (test_source_orig_tok : option (list (list string))) (written : list string) :
  ids_to_tokens (before ++ Some line :: after) to_vocab ttable test_source_orig_tok
  = Ok written →
  let n := non_null before in
  (∀ k, before !! k = Some None → written !! k = Some (String newline EmptyString)) ∧
  (∃ sent, written !! length before = Some sent ∧
           ids_to_tokens [Some line] to_vocab ttable (drop n <$> test_source_orig_tok)
           = Ok [sent]) ∧
  (∀ table pre post,
     ttable = Some table → word_idxs line = pre ++ UNK_ID :: post →
     ∃ sources tokens row p s,
       test_source_orig_tok = Some sources ∧ sources !! n = Some tokens ∧
       attention_history line !! length pre = Some row ∧ first_argmax row p ∧
       tokens !! p = Some s).
Proof.
  intros Hrun n. unfold ids_to_tokens in *.
  set (d := map (strip str_isspace) to_vocab) in *.
  pose proof (ids_to_tokens_loop_written _ _ _ _ _ _ Hrun) as (_ & _ & Hnull).
  apply ids_to_tokens_loop_line in Hrun as (sent & Hsent & Hline).
  change (0 + non_null before) with n in Hline.
  split; [|split].
  - intros k Hk. apply Hnull. apply lookup_app_l_Some. exact Hk.
  - exists sent. split; [exact Hsent|]. cbn [ids_to_tokens_loop].
    unfold write_line in *. rewrite <- collect_words_shift.
    destruct (collect_words d ttable test_source_orig_tok (attention_history line) n 0
                (word_idxs line)) as [ws|e]; simpl in *; [|discriminate].
    injection Hline as <-. reflexivity.
  - intros table pre post -> Hids. unfold write_line in Hline. rewrite Hids in Hline.
    destruct (collect_words d (Some table) test_source_orig_tok (attention_history line)
                n 0 (pre ++ UNK_ID :: post)) as [words|e] eqn:Hwords; [|discriminate].
    apply collect_words_around_unk in Hwords as (wpre & w & wpost & _ & _ & Hw & _).
    apply unk_target_word_Ok in Hw as (row & p & tokens & s & Hrow & Hp & Hsrc & Hs & _).
    destruct test_source_orig_tok as [sources|]; [|discriminate].
    exists sources, tokens, row, p, s. simpl in Hsrc. auto.
Qed.

Lemma ids_to_tokens_sent_idx_witness :
  let n := non_null [None; Some eos_inside; None] in
  (∀ k, [None; Some eos_inside; None] !! k = Some None →
        [String newline EmptyString; "a b c" +:+ String newline EmptyString;
         String newline EmptyString; "a z2 b" +:+ String newline EmptyString] !! k
        = Some (String newline EmptyString)) ∧
  (∃ sent,
     [String newline EmptyString; "a b c" +:+ String newline EmptyString;
      String newline EmptyString; "a z2 b" +:+ String newline EmptyString]
       !! length [None; Some eos_inside; None] = Some sent ∧
     ids_to_tokens [Some unk_inside] abc_vocab (Some y1_ttable)
                   (drop n <$> Some two_sources) = Ok [sent]) ∧
  (∀ table pre post,
     Some y1_ttable = Some table → word_idxs unk_inside = pre ++ UNK_ID :: post →
     ∃ sources tokens row p s,
       Some two_sources = Some sources ∧ sources !! n = Some tokens ∧
       attention_history unk_inside !! length pre = Some row ∧ first_argmax row p ∧
       tokens !! p = Some s).
Proof.
  apply (ids_to_tokens_sent_idx [None; Some eos_inside; None] [] unk_inside abc_vocab
           (Some y1_ttable) (Some two_sources)).
  vm_compute. reflexivity.
Defined.

(** After a null line, the line at input position 1 takes its replacement
    from source sentence 0. *)
Example ids_to_tokens_after_null_line :
  ids_to_tokens [None; Some unk_line] abc_vocab (Some ∅) (Some two_sources)
  = Ok [String newline EmptyString; "y0" +:+ String newline EmptyString].
Proof. vm_compute. reflexivity. Qed.

(** ** Stable sorting by descending key *)

Lemma before_cons {A : Type} (l : list A) (x a b : A) :
  before l a b → before (x :: l) a b.
Proof. intros (l1 & l2 & l3 & ->). exists (x :: l1), l2, l3. reflexivity. Qed.

Lemma before_head {A : Type} (l : list A) (x b : A) : b ∈ l → before (x :: l) x b.
Proof.
  intros Hb. apply list_elem_of_split in Hb as (l2 & l3 & ->).
  exists [], l2, l3. reflexivity.
Qed.

Lemma before_lookup {A : Type} (l : list A) (a b : A) :
  before l a b ↔ ∃ i j, i < j ∧ l !! i = Some a ∧ l !! j = Some b.
Proof.
  split.
  - intros (l1 & l2 & l3 & ->). exists (length l1), (length l1 + S (length l2)).
    split; [lia|]. split.
    + rewrite lookup_app_r by lia. rewrite Nat.sub_diag. reflexivity.
    + rewrite lookup_app_r by lia.
      replace (length l1 + S (length l2) - length l1) with (S (length l2)) by lia.
      simpl. rewrite lookup_app_r by lia. rewrite Nat.sub_diag. reflexivity.
  - intros (i & j & Hij & Hi & Hj).
    pose proof (take_drop_middle l i a Hi) as Hsplit.
    assert (drop (S i) l !! (j - S i) = Some b) as Hb.
    { rewrite lookup_drop. replace (S i + (j - S i)) with j by lia. assumption. }
    pose proof (take_drop_middle _ _ _ Hb) as Hsplit2.
    exists (take i l), (take (j - S i) (drop (S i) l)), (drop (S (j - S i)) (drop (S i) l)).
    rewrite Hsplit2. symmetry. assumption.
Qed.

Lemma before_NoDup_asym {A : Type} (l : list A) (a b : A) :
  NoDup l → before l a b → before l b a → False.
Proof.
  intros Hnd Hab Hba.
  apply before_lookup in Hab as (i & j & Hij & Hi & Hj).
  apply before_lookup in Hba as (i' & j' & Hij' & Hi' & Hj').
  pose proof (NoDup_lookup _ _ _ _ Hnd Hi Hj'). 
  pose proof (NoDup_lookup _ _ _ _ Hnd Hj Hi'). lia.
Qed.

Lemma StronglySorted_lookup {A : Type} (R : A -> A -> Prop) (l : list A)
    (i j : nat) (a b : A) :
  StronglySorted R l → i < j → l !! i = Some a → l !! j = Some b → R a b.
Proof.
  intros Hs. revert i j. induction Hs as [|x l Hs IH Hx]; intros i j Hij Hi Hj.
  - discriminate.
  - destruct j as [|j]; [lia|]. simpl in Hj. destruct i as [|i].
    + injection Hi as <-. rewrite Forall_forall in Hx. apply Hx.
      eapply list_elem_of_lookup_2. eassumption.
    + simpl in Hi. apply (IH i j); [lia|assumption|assumption].
Qed.

Lemma StronglySorted_weaken {A : Type} (R R' : A -> A -> Prop) (l : list A) :
  (∀ a b, R a b → R' a b) → StronglySorted R l → StronglySorted R' l.
Proof.
  intros Himp Hs. induction Hs as [|x l Hs IH Hx]; constructor; [assumption|].
  eapply Forall_impl; [exact Hx|]. intros b. apply Himp.
Qed.

Section sorting.
Context {A : Type}.
Variable key : A -> nat.

Lemma insert_desc_perm (x : A) (l : list A) : insert_desc key x l ≡ₚ x :: l.
Proof.
  induction l as [|y l IH]; simpl; [reflexivity|].
  destruct (key x <? key y); [|reflexivity].
  rewrite IH. apply Permutation_swap.
Qed.

Lemma sorted_desc_perm (l : list A) : sorted_desc key l ≡ₚ l.
Proof.
  induction l as [|x l IH]; simpl; [reflexivity|].
  unfold sorted_desc in *. simpl. rewrite insert_desc_perm, IH. reflexivity.
Qed.

Lemma sorted_desc_length (l : list A) : length (sorted_desc key l) = length l.
Proof. apply Permutation_length, sorted_desc_perm. Qed.

Lemma insert_desc_sorted (R : A -> A -> Prop) (x : A) (l : list A) :
  (∀ y, y ∈ l → key x < key y → R y x) →
  (∀ y, y ∈ l → key y ≤ key x → R x y) →
  (∀ y z, R y z → key z ≤ key y) →
  StronglySorted R l → StronglySorted R (insert_desc key x l).
Proof.
  intros Hgt Hle Hkey Hs. induction Hs as [|y l Hs IH Hy]; simpl.
  - constructor; constructor.
  - destruct (key x <? key y) eqn:Hc.
    + apply Nat.ltb_lt in Hc. constructor.
      * apply IH.
        -- intros z Hz. apply Hgt. right. assumption.
        -- intros z Hz. apply Hle. right. assumption.
      * rewrite insert_desc_perm. constructor; [|assumption].
        apply Hgt; [left|assumption].
    + apply Nat.ltb_ge in Hc. constructor; [constructor; assumption|].
      constructor.
      * apply Hle; [left|assumption].
      * rewrite Forall_forall in Hy |- *. intros z Hz.
        apply Hle; [right; assumption|].
        specialize (Hkey _ _ (Hy z Hz)). lia.
Qed.

Lemma sorted_desc_ranked (l : list A) :
  StronglySorted (ranked key l) (sorted_desc key l).
Proof.
  induction l as [|x l IH]; [constructor|].
  change (sorted_desc key (x :: l)) with (insert_desc key x (sorted_desc key l)).
  apply insert_desc_sorted.
  - intros y _ Hlt. left. assumption.
  - intros y Hy Hle. unfold ranked.
    destruct (decide (key y = key x)) as [Heq|Hne]; [|left; lia].
    right. split; [congruence|]. apply before_head.
    rewrite <- (sorted_desc_perm l). assumption.
  - intros y z [Hlt|[Heq _]]; lia.
  - eapply StronglySorted_weaken; [|exact IH].
    intros a b [Hlt|[Heq Hb]]; [left; assumption|right].
    split; [assumption|]. apply before_cons. assumption.
Qed.

(** In the sorted list, an element of greater key stands first, and of
    two elements of equal key the one that stood first in [l]. *)
Lemma sorted_desc_position (l : list A) (a b : A) (i j : nat) :
  NoDup l →
  sorted_desc key l !! i = Some a → sorted_desc key l !! j = Some b →
  key b < key a ∨ (key a = key b ∧ before l a b) → i < j.
Proof.
  intros Hnd Hi Hj Hrank.
  destruct (lt_eq_lt_dec i j) as [[Hlt|Heq]|Hgt]; [assumption| |]; exfalso.
  - subst j. rewrite Hi in Hj. injection Hj as <-.
    destruct Hrank as [Hlt|[_ Hb]]; [lia|].
    eapply before_NoDup_asym; eassumption.
  - pose proof (sorted_desc_ranked l) as Hs.
    assert (ranked key l b a) as [Hlt|[Heq Hb]].
    { eapply (StronglySorted_lookup (ranked key l)); eassumption. }
    + destruct Hrank as [Hlt'|[Heq' _]]; lia.
    + destruct Hrank as [Hlt'|[_ Hb']]; [lia|].
      eapply before_NoDup_asym; eassumption.
Qed.
End sorting.

(** ** Counting the corpus *)

Lemma count_corpus_words tokenizer normalize_digits (data : string) :
  count_corpus tokenizer normalize_digits (readlines data) =
  count_words (corpus_words tokenizer normalize_digits data).
Proof.
  unfold count_corpus, count_words, corpus_words.
  generalize (@nil (string * nat)). 
  induction (readlines data) as [|line lines IH]; intros vocab; simpl; [reflexivity|].
  rewrite foldl_app. apply IH.
Qed.

Lemma count_words_snoc (ws : list string) (w : string) :
  count_words (ws ++ [w]) = vocab_count w (count_words ws).
Proof. unfold count_words. rewrite foldl_app. reflexivity. Qed.

Lemma occurrences_app (a : string) (ws1 ws2 : list string) :
  occurrences a (ws1 ++ ws2) = occurrences a ws1 + occurrences a ws2.
Proof. induction ws1 as [|w ws1 IH]; simpl; [reflexivity|]. rewrite IH. lia. Qed.

Lemma occurrences_pos (a : string) (ws : list string) :
  0 < occurrences a ws ↔ a ∈ ws.
Proof.
  induction ws as [|w ws IH]; simpl.
  - split; [lia|]. intros H. inversion H.
  - destruct (String.eqb_spec w a) as [->|Hne].
    + split; [intros _; left|lia].
    + rewrite elem_of_cons. simpl. rewrite IH. split; [auto|].
      intros [->|H]; [congruence|assumption].
Qed.

Lemma dict_get_vocab_count (d : pydict nat) (w k : string) :
  dict_get (vocab_count w d) k =
  if String.eqb w k then Some (S (default 0 (dict_get d k))) else dict_get d k.
Proof.
  induction d as [|[k' v] d IH]; simpl.
  - destruct (String.eqb w k); reflexivity.
  - destruct (String.eqb_spec k' w) as [->|Hne]; simpl.
    + destruct (String.eqb w k); reflexivity.
    + rewrite IH. destruct (String.eqb_spec w k) as [->|Hne'].
      * destruct (String.eqb_spec k' k); [congruence|reflexivity].
      * reflexivity.
Qed.

Lemma dict_keys_vocab_count (d : pydict nat) (w : string) :
  dict_keys (vocab_count w d) =
  if decide (w ∈ dict_keys d) then dict_keys d else dict_keys d ++ [w].
Proof.
  unfold dict_keys. induction d as [|[k v] d IH].
  - destruct (decide (w ∈ map fst [])) as [Hin|_]; [inversion Hin|reflexivity].
  - cbn [vocab_count]. destruct (String.eqb_spec k w) as [->|Hne].
    + destruct (decide (w ∈ map fst ((w, v) :: d))) as [_|Hnin]; [reflexivity|].
      exfalso. apply Hnin. left.
    + cbn [map fst]. rewrite IH.
      destruct (decide (w ∈ map fst d)) as [Hin|Hnin];
        destruct (decide (w ∈ k :: map fst d)) as [Hin'|Hnin']; try reflexivity.
      * exfalso. apply Hnin'. right. assumption.
      * exfalso. apply elem_of_cons in Hin' as [->|H]; [congruence|contradiction].
Qed.

Lemma vocab_get_count_words (ws : list string) (k : string) :
  dict_get (count_words ws) k =
  if occurrences k ws =? 0 then None else Some (occurrences k ws).
Proof.
  induction ws as [|w ws IH] using rev_ind; [reflexivity|].
  rewrite count_words_snoc, dict_get_vocab_count, IH, occurrences_app. simpl.
  destruct (String.eqb w k).
  - destruct (occurrences k ws) as [|n] eqn:Hn; simpl.
    + reflexivity.
    + replace (S n + 1 =? 0) with false by (symmetry; apply Nat.eqb_neq; lia).
      f_equal. lia.
  - rewrite !Nat.add_0_r. reflexivity.
Qed.

Lemma vocab_get_occurrences (ws : list string) (k : string) :
  vocab_get (count_words ws) k = occurrences k ws.
Proof.
  unfold vocab_get. rewrite vocab_get_count_words.
  destruct (occurrences k ws); reflexivity.
Qed.

Lemma count_words_keys_elem (ws : list string) (k : string) :
  k ∈ dict_keys (count_words ws) ↔ k ∈ ws.
Proof.
  induction ws as [|w ws IH] using rev_ind; [reflexivity|].
  rewrite count_words_snoc, dict_keys_vocab_count, elem_of_app, list_elem_of_singleton.
  destruct (decide (w ∈ dict_keys (count_words ws))) as [Hin|Hnin].
  - rewrite IH. split; [auto|]. intros [H| ->]; [assumption|]. apply IH. assumption.
  - rewrite elem_of_app, list_elem_of_singleton, IH. reflexivity.
Qed.

Lemma count_words_keys_NoDup (ws : list string) : NoDup (dict_keys (count_words ws)).
Proof.
  induction ws as [|w ws IH] using rev_ind; [constructor|].
  rewrite count_words_snoc, dict_keys_vocab_count.
  destruct (decide (w ∈ dict_keys (count_words ws))) as [Hin|Hnin]; [assumption|].
  apply NoDup_app. split; [assumption|]. split.
  - intros x Hx Hx'. apply list_elem_of_singleton in Hx'. congruence.
  - apply NoDup_singleton.
Qed.

Lemma count_words_keys_length (ws : list string) :
  length (dict_keys (count_words ws)) = distinct ws.
Proof.
  unfold distinct. apply Permutation_length. apply NoDup_Permutation.
  - apply count_words_keys_NoDup.
  - apply NoDup_remove_dups.
  - intros k. rewrite count_words_keys_elem, elem_of_remove_dups. reflexivity.
Qed.

Lemma first_seen_before_snoc (ws : list string) (w a b : string) :
  first_seen_before ws a b → first_seen_before (ws ++ [w]) a b.
Proof.
  intros (i & Hi & Hb). exists i. pose proof (lookup_lt_Some _ _ _ Hi) as Hlt. split.
  - rewrite lookup_app_l by assumption. assumption.
  - rewrite take_app_le by lia. assumption.
Qed.

(** The keys of the frequency dict stand in the order in which the words
    are first seen. *)
Lemma count_words_keys_before (ws : list string) (a b : string) :
  before (dict_keys (count_words ws)) a b → first_seen_before ws a b.
Proof.
  induction ws as [|w ws IH] using rev_ind.
  - intros (l1 & l2 & l3 & H). destruct l1; discriminate.
  - rewrite count_words_snoc, dict_keys_vocab_count.
    destruct (decide (w ∈ dict_keys (count_words ws))) as [Hin|Hnin].
    + intros H. apply first_seen_before_snoc, IH, H.
    + intros Hb. apply before_lookup in Hb as (i & j & Hij & Hi & Hj).
      pose proof (lookup_lt_Some _ _ _ Hj) as Hjlt. rewrite length_app in Hjlt. simpl in Hjlt.
      rewrite lookup_app_l in Hi by lia.
      destruct (decide (j < length (dict_keys (count_words ws)))) as [Hj'|Hj'].
      * rewrite lookup_app_l in Hj by assumption.
        apply first_seen_before_snoc, IH, before_lookup. eauto.
      * rewrite lookup_app_r in Hj by lia.
        apply list_lookup_singleton_Some in Hj as [_ <-].
        assert (a ∈ ws) as Ha.
        { apply count_words_keys_elem. eapply list_elem_of_lookup_2. eassumption. }
        apply list_elem_of_lookup_1 in Ha as (p & Hp).
        exists p. pose proof (lookup_lt_Some _ _ _ Hp) as Hplt. split.
        -- rewrite lookup_app_l by assumption. assumption.
        -- rewrite take_app_le by lia. intros Hw. apply Hnin.
           apply count_words_keys_elem. eapply subseteq_take. eassumption.
Qed.

Lemma first_seen_before_asym (ws : list string) (a b : string) :
  first_seen_before ws a b → first_seen_before ws b a → False.
Proof.
  intros (i & Hi & Hb) (j & Hj & Ha).
  destruct (le_lt_dec i j) as [Hle|Hlt].
  - apply Ha. apply list_elem_of_lookup. exists i. rewrite lookup_take_lt by lia. assumption.
  - apply Hb. apply list_elem_of_lookup. exists j. rewrite lookup_take_lt by lia. assumption.
Qed.

Lemma first_seen_before_irrefl (ws : list string) (a : string) :
  ¬ first_seen_before ws a a.
Proof.
  intros (i & Hi & Ha). apply Ha. apply list_elem_of_lookup. exists i.
  rewrite lookup_take_lt by lia. assumption.
Qed.

Lemma count_words_keys_first_seen (ws : list string) (a b : string) :
  a ∈ dict_keys (count_words ws) → b ∈ dict_keys (count_words ws) →
  first_seen_before ws a b → before (dict_keys (count_words ws)) a b.
Proof.
  intros Ha Hb Hseen.
  apply list_elem_of_lookup_1 in Ha as (p & Hp).
  apply list_elem_of_lookup_1 in Hb as (q & Hq).
  destruct (lt_eq_lt_dec p q) as [[Hlt|Heq]|Hgt].
  - apply before_lookup. eauto.
  - subst q. rewrite Hp in Hq. injection Hq as <-.
    exfalso. eapply first_seen_before_irrefl. eassumption.
  - exfalso. apply (first_seen_before_asym ws a b); [assumption|].
    apply count_words_keys_before, before_lookup. eauto.
Qed.

(** ** The built vocabulary *)

Lemma create_vocab_list_cut data max_vocabulary_size tokenizer normalize_digits :
  create_vocab_list data max_vocabulary_size tokenizer normalize_digits =
  if (max_vocabulary_size <? Z.of_nat (length (full_vocab_list tokenizer normalize_digits data)))%Z
  then py_slice_to (full_vocab_list tokenizer normalize_digits data) max_vocabulary_size
  else full_vocab_list tokenizer normalize_digits data.
Proof.
  unfold create_vocab_list, full_vocab_list. rewrite count_corpus_words. reflexivity.
Qed.

Lemma full_vocab_list_length tokenizer normalize_digits data :
  length (full_vocab_list tokenizer normalize_digits data) =
  4 + distinct (corpus_words tokenizer normalize_digits data).
Proof.
  unfold full_vocab_list. rewrite length_app, sorted_desc_length, count_words_keys_length.
  reflexivity.
Qed.

Lemma create_vocab_list_prefix data max_vocabulary_size tokenizer normalize_digits :
  ∃ n, create_vocab_list data max_vocabulary_size tokenizer normalize_digits =
       take n (full_vocab_list tokenizer normalize_digits data).
Proof.
  rewrite create_vocab_list_cut. unfold py_slice_to.
  destruct (_ <? _)%Z.
  - destruct (max_vocabulary_size <? 0)%Z; eauto.
  - exists (length (full_vocab_list tokenizer normalize_digits data)).
    rewrite firstn_all. reflexivity.
Qed.

(** The list that is written: its length and its first four entries. *)
Lemma create_vocab_list_size (data : string) (max_vocabulary_size : Z)
    (tokenizer : option (string -> list string)) (normalize_digits : bool) :
  (4 ≤ max_vocabulary_size)%Z →
  Z.of_nat (length (create_vocab_list data max_vocabulary_size tokenizer normalize_digits))
  = Z.min max_vocabulary_size
          (Z.of_nat (4 + distinct (corpus_words tokenizer normalize_digits data))) ∧
  take 4 (create_vocab_list data max_vocabulary_size tokenizer normalize_digits)
  = [_PAD; _GO; _EOS; _UNK].
Proof.
  intros Hmax. rewrite create_vocab_list_cut.
  pose proof (full_vocab_list_length tokenizer normalize_digits data) as Hlen.
  assert (take 4 (full_vocab_list tokenizer normalize_digits data) = _START_VOCAB) as Hstart.
  { unfold full_vocab_list. reflexivity. }
  destruct (_ <? _)%Z eqn:Hcut.
  - apply Z.ltb_lt in Hcut. unfold py_slice_to.
    replace (max_vocabulary_size <? 0)%Z with false by (symmetry; apply Z.ltb_ge; lia).
    split.
    + rewrite length_take. lia.
    + rewrite take_take. replace (4 `min` Z.to_nat max_vocabulary_size) with 4 by lia.
      exact Hstart.
  - apply Z.ltb_ge in Hcut. split; [lia|exact Hstart].
Qed.

Example create_vocab_list_small :
  create_vocab_list small_corpus 7 None true = ["_PAD"; "_GO"; "_EOS"; "_UNK"; "b"; "a"; "c"] ∧
  create_vocab_list small_corpus 20 None true
  = ["_PAD"; "_GO"; "_EOS"; "_UNK"; "b"; "a"; "c"; "00"] ∧
  distinct (corpus_words None true small_corpus) = 4.
Proof. vm_compute. auto. Qed.

(** C7: of two words of the built vocabulary that are not start symbols,
    the one with the greater corpus count has the smaller index, and of
    two with equal counts the one first seen in the scan of the corpus. *)
Theorem create_vocabulary_ranking (data : string) (max_vocabulary_size : Z)
    (tokenizer : option (string -> list string)) (normalize_digits : bool)
    (a b : string) (i j : nat) :
  create_vocab_list data max_vocabulary_size tokenizer normalize_digits !! i = Some a →
  create_vocab_list data max_vocabulary_size tokenizer normalize_digits !! j = Some b →
  a ∉ _START_VOCAB → b ∉ _START_VOCAB →
  (occurrences b (corpus_words tokenizer normalize_digits data)
   < occurrences a (corpus_words tokenizer normalize_digits data) → i < j) ∧
  (occurrences a (corpus_words tokenizer normalize_digits data)
   = occurrences b (corpus_words tokenizer normalize_digits data) →
   first_seen_before (corpus_words tokenizer normalize_digits data) a b → i < j).
Proof.
  intros Hi Hj Ha Hb.
  destruct (create_vocab_list_prefix data max_vocabulary_size tokenizer normalize_digits)
    as (n & Hcut).
  rewrite Hcut in Hi, Hj.
  apply lookup_take_Some in Hi as [Hi _]. apply lookup_take_Some in Hj as [Hj _].
  unfold full_vocab_list in Hi, Hj.
  set (ws := corpus_words tokenizer normalize_digits data) in *.
  apply lookup_app_Some in Hi as [Hi|[Hi4 Hi]].
  { exfalso. apply Ha. eapply list_elem_of_lookup_2. eassumption. }
  apply lookup_app_Some in Hj as [Hj|[Hj4 Hj]].
  { exfalso. apply Hb. eapply list_elem_of_lookup_2. eassumption. }
  assert (∀ P : Prop,
            (P → occurrences b ws < occurrences a ws ∨
                 (occurrences a ws = occurrences b ws ∧
                  before (dict_keys (count_words ws)) a b)) →
            P → i < j) as Hpos.
  { intros P HP p.
    enough (i - length _START_VOCAB < j - length _START_VOCAB) by lia.
    eapply (sorted_desc_position (vocab_get (count_words ws))); 
      [apply count_words_keys_NoDup|exact Hi|exact Hj|].
    rewrite !vocab_get_occurrences. apply HP, p. }
  split.
  - intros Hlt. apply (Hpos _ (fun H => or_introl H) Hlt).
  - intros Heq Hseen. apply (Hpos True); [|exact I]. intros _. right. split; [assumption|].
    apply count_words_keys_first_seen; [| |assumption].
    + rewrite <- (sorted_desc_perm (vocab_get (count_words ws))).
      eapply list_elem_of_lookup_2. eassumption.
    + rewrite <- (sorted_desc_perm (vocab_get (count_words ws))).
      eapply list_elem_of_lookup_2. eassumption.
Qed.

Lemma create_vocabulary_ranking_witness :
  (occurrences "12" (corpus_words None false small_corpus)
   < occurrences "b" (corpus_words None false small_corpus) → 4 < 7) ∧
  (occurrences "b" (corpus_words None false small_corpus)
   = occurrences "12" (corpus_words None false small_corpus) →
   first_seen_before (corpus_words None false small_corpus) "b" "12" → 4 < 7).
Proof.
  apply (create_vocabulary_ranking small_corpus 100 None false "b" "12" 4 7).
  - reflexivity.
  - reflexivity.
  - intros H. absurd_member H.
  - intros H. absurd_member H.
Defined.

Example create_vocab_list_ties :
  create_vocab_list small_corpus 100 None false
  = ["_PAD"; "_GO"; "_EOS"; "_UNK"; "b"; "a"; "c"; "12"; "13"].
Proof. vm_compute. reflexivity. Qed.

(** ** The vocabulary file *)

Lemma no_space_snoc (w : string) (c : ascii) :
  no_space w = true → bytes_isspace c = false →
  no_space (w +:+ String c EmptyString) = true.
Proof.
  induction w as [|c' w IH]; simpl; intros Hw Hc.
  - rewrite Hc. reflexivity.
  - apply andb_true_iff in Hw as [Hc' Hw]. rewrite Hc', IH by assumption. reflexivity.
Qed.

Lemma split_go_no_space (s cur : string) :
  no_space cur = true → Forall (fun w => no_space w = true) (split_go bytes_isspace cur s).
Proof.
  revert cur. induction s as [|c s IH]; intros cur Hcur; simpl.
  - destruct (is_empty cur); [constructor|]. constructor; [assumption|constructor].
  - destruct (bytes_isspace c) eqn:Hc.
    + destruct (is_empty cur); [apply IH; reflexivity|].
      constructor; [assumption|]. apply IH. reflexivity.
    + apply IH, no_space_snoc; assumption.
Qed.

Lemma basic_tokenizer_no_space (line w : string) :
  w ∈ tokenize None line → no_space w = true.
Proof.
  intros Hw. simpl in Hw. unfold basic_tokenizer, split in Hw.
  pose proof (split_go_no_space (strip bytes_isspace line) EmptyString eq_refl) as Hall.
  rewrite Forall_forall in Hall. apply Hall. assumption.
Qed.

Lemma normalize_digits_sub_no_space (w : string) :
  no_space w = true → no_space (normalize_digits_sub w) = true.
Proof.
  induction w as [|c w IH]; simpl; [reflexivity|]. intros H.
  apply andb_true_iff in H as [Hc Hw]. rewrite IH by assumption.
  destruct (is_digit c); [reflexivity|]. rewrite Hc. reflexivity.
Qed.

Lemma append_cons (c : ascii) (s1 s2 : string) :
  String c s1 +:+ s2 = String c (s1 +:+ s2).
Proof. reflexivity. Qed.

Lemma append_assoc (s1 s2 s3 : string) : (s1 +:+ s2) +:+ s3 = s1 +:+ (s2 +:+ s3).
Proof.
  induction s1 as [|c s1 IH]; [reflexivity|].
  rewrite !append_cons. f_equal. exact IH.
Qed.

(** Reading back a written entry: the line is the entry with its newline. *)
Lemma readlines_go_entry (w cur rest : string) :
  no_space w = true →
  readlines_go cur (w +:+ String newline rest) =
  (cur +:+ w +:+ String newline EmptyString) :: readlines_go EmptyString rest.
Proof.
  revert cur. induction w as [|c w IH]; intros cur Hw; simpl.
  - reflexivity.
  - simpl in Hw. apply andb_true_iff in Hw as [Hc Hw].
    destruct (Ascii.eqb_spec c newline) as [->|_]; [discriminate Hc|].
    rewrite IH by assumption. rewrite append_assoc. reflexivity.
Qed.

Lemma readlines_write_vocabulary (vocab_list : list string) :
  Forall (fun w => no_space w = true) vocab_list →
  readlines (write_vocabulary vocab_list) =
  map (fun w => w +:+ String newline EmptyString) vocab_list.
Proof.
  unfold readlines. induction 1 as [|w ws Hw Hws IH]; simpl; [reflexivity|].
  rewrite readlines_go_entry by assumption. simpl. rewrite IH. reflexivity.
Qed.

Lemma rstrip_entry (w : string) :
  no_space w = true → rstrip bytes_isspace (w +:+ String newline EmptyString) = w.
Proof.
  induction w as [|c w IH]; simpl; [reflexivity|]. intros H.
  apply andb_true_iff in H as [Hc Hw]. rewrite IH by assumption.
  apply negb_true_iff in Hc. rewrite Hc. reflexivity.
Qed.

Lemma strip_entry (w : string) :
  no_space w = true → strip bytes_isspace (w +:+ String newline EmptyString) = w.
Proof.
  intros Hw. unfold strip. destruct w as [|c w]; [reflexivity|].
  pose proof Hw as Hw'. simpl in Hw'. apply andb_true_iff in Hw' as [Hc _].
  apply negb_true_iff in Hc. 
  change ((String c w) +:+ String newline EmptyString)
    with (String c (w +:+ String newline EmptyString)).
  cbn [lstrip]. rewrite Hc. apply (rstrip_entry (String c w)). assumption.
Qed.

(** Loading a written vocabulary gives back the list that was written. *)
Lemma strip_readlines_write_vocabulary (vocab_list : list string) :
  Forall (fun w => no_space w = true) vocab_list →
  map (strip bytes_isspace) (readlines (write_vocabulary vocab_list)) = vocab_list.
Proof.
  intros Hall. rewrite readlines_write_vocabulary by assumption.
  induction Hall as [|w ws Hw Hws IH]; simpl; [reflexivity|].
  rewrite strip_entry by assumption. f_equal. exact IH.
Qed.

Lemma corpus_words_no_space tokenizer normalize_digits (data : string) :
  (∀ line w, w ∈ tokenize tokenizer line → no_space w = true) →
  ∀ w, w ∈ corpus_words tokenizer normalize_digits data → no_space w = true.
Proof.
  intros Hclean w Hw. unfold corpus_words in Hw.
  apply list_elem_of_In, in_concat in Hw as (ws & Hws & Hw).
  apply in_map_iff in Hws as (line & <- & _).
  unfold line_words in Hw. apply in_map_iff in Hw as (t & <- & Ht).
  apply list_elem_of_In, Hclean in Ht.
  destruct normalize_digits; [apply normalize_digits_sub_no_space|]; assumption.
Qed.

Lemma full_vocab_list_elem tokenizer normalize_digits (data w : string) :
  w ∈ full_vocab_list tokenizer normalize_digits data ↔
  w ∈ _START_VOCAB ∨ w ∈ corpus_words tokenizer normalize_digits data.
Proof.
  unfold full_vocab_list. rewrite elem_of_app, sorted_desc_perm, count_words_keys_elem.
  reflexivity.
Qed.

Lemma create_vocab_list_no_space data max_vocabulary_size tokenizer normalize_digits :
  (∀ line w, w ∈ tokenize tokenizer line → no_space w = true) →
  Forall (fun w => no_space w = true)
         (create_vocab_list data max_vocabulary_size tokenizer normalize_digits).
Proof.
  intros Hclean.
  destruct (create_vocab_list_prefix data max_vocabulary_size tokenizer normalize_digits)
    as (n & ->).
  apply Forall_take, Forall_forall. intros w Hw.
  apply full_vocab_list_elem in Hw as [Hw|Hw].
  - repeat (apply elem_of_cons in Hw as [->|Hw]; [reflexivity|]). inversion Hw.
  - eapply corpus_words_no_space; eassumption.
Qed.

Lemma create_vocab_list_NoDup data max_vocabulary_size tokenizer normalize_digits :
  (∀ w, w ∈ corpus_words tokenizer normalize_digits data → w ∉ _START_VOCAB) →
  NoDup (create_vocab_list data max_vocabulary_size tokenizer normalize_digits).
Proof.
  intros Hfresh.
  destruct (create_vocab_list_prefix data max_vocabulary_size tokenizer normalize_digits)
    as (n & ->).
  assert (NoDup (full_vocab_list tokenizer normalize_digits data)) as Hnd.
  { unfold full_vocab_list. apply NoDup_app. split; [|split].
    - repeat (apply NoDup_cons; split; [intros H; absurd_member H|]).
      apply NoDup_nil. exact I.
    - intros w Hw Hw'. rewrite sorted_desc_perm, count_words_keys_elem in Hw'.
      exact (Hfresh w Hw' Hw).
    - rewrite sorted_desc_perm. apply count_words_keys_NoDup. }
  rewrite <- (take_drop n (full_vocab_list tokenizer normalize_digits data)) in Hnd.
  apply NoDup_app in Hnd as [Hnd _]. exact Hnd.
Qed.

(** ** The loaded vocabulary *)

Lemma dict_of_enumerate_snoc (l : list string) (x : string) :
  dict_of_enumerate (l ++ [x]) = <[x := Z.of_nat (length l)]> (dict_of_enumerate l).
Proof.
  unfold dict_of_enumerate. rewrite imap_app, foldl_app. simpl.
  rewrite Nat.add_0_r. reflexivity.
Qed.

(** Every entry of the mapping is inverted by the list. *)
Lemma dict_of_enumerate_Some (l : list string) (t : string) (id : Z) :
  dict_of_enumerate l !! t = Some id → ∃ i, id = Z.of_nat i ∧ l !! i = Some t.
Proof.
  induction l as [|x l IH] using rev_ind.
  - unfold dict_of_enumerate. simpl. rewrite lookup_empty. discriminate.
  - rewrite dict_of_enumerate_snoc. destruct (decide (x = t)) as [->|Hne].
    + rewrite lookup_insert_eq. intros [= <-]. exists (length l). split; [reflexivity|].
      rewrite lookup_app_r by lia. rewrite Nat.sub_diag. reflexivity.
    + rewrite lookup_insert_ne by assumption. intros H.
      destruct (IH H) as (i & -> & Hi). exists i. split; [reflexivity|].
      rewrite lookup_app_l; [assumption|]. eapply lookup_lt_Some. eassumption.
Qed.

(** Without repeated lines, every position of the list is inverted by the
    mapping. *)
Lemma dict_of_enumerate_NoDup (l : list string) (i : nat) (t : string) :
  NoDup l → l !! i = Some t → dict_of_enumerate l !! t = Some (Z.of_nat i).
Proof.
  revert i. induction l as [|x l IH] using rev_ind; intros i Hnd Hi; [discriminate|].
  rewrite dict_of_enumerate_snoc. apply NoDup_app in Hnd as (Hnd & Hfresh & _).
  apply lookup_app_Some in Hi as [Hi|[Hge Hi]].
  - rewrite lookup_insert_ne; [apply IH; assumption|].
    intros ->. apply (Hfresh t); [|left]. eapply list_elem_of_lookup_2. eassumption.
  - apply list_lookup_singleton_Some in Hi as [Hz <-].
    rewrite lookup_insert_eq. f_equal. lia.
Qed.

Lemma exact_inverses_NoDup (l : list string) :
  NoDup l → exact_inverses (dict_of_enumerate l) l.
Proof.
  intros Hnd i t. split.
  - apply dict_of_enumerate_NoDup. assumption.
  - intros H. apply dict_of_enumerate_Some in H as (i' & Heq & Hi').
    apply Nat2Z.inj in Heq. subst i'. assumption.
Qed.

(** C2, as the claim states it, fails.  For a corpus that contains the
    word [_PAD], line 0 of the loaded list is [_PAD] while the loaded
    mapping sends [_PAD] to 4.  For a tokenizer that keeps the newline in
    its tokens, the file holds an empty line after every word: lines 5 and
    7 of the loaded list are empty and the mapping sends the empty token
    to 7. *)
Lemma vocabulary_not_inverse :
  (∃ vocab rev_vocab,
     initialize_vocabulary
       (Some (create_vocabulary ("_PAD" +:+ String newline EmptyString) 10 None false))
     = Ok (vocab, rev_vocab) ∧
     rev_vocab !! 0 = Some _PAD ∧ vocab !! _PAD = Some 4%Z ∧
     ¬ exact_inverses vocab rev_vocab) ∧
  (∃ vocab rev_vocab,
     initialize_vocabulary
       (Some (create_vocabulary two_line_corpus 10 (Some (fun line => [line])) false))
     = Ok (vocab, rev_vocab) ∧
     rev_vocab !! 5 = Some EmptyString ∧ vocab !! EmptyString = Some 7%Z ∧
     ¬ exact_inverses vocab rev_vocab).
Proof.
  split.
  - eexists _, _. split; [reflexivity|].
    assert (map (strip bytes_isspace)
              (readlines
                 (create_vocabulary ("_PAD" +:+ String newline EmptyString) 10 None false))
            = [_PAD; _GO; _EOS; _UNK; _PAD]) as -> by (vm_compute; reflexivity).
    assert (dict_of_enumerate [_PAD; _GO; _EOS; _UNK; _PAD] !! _PAD = Some 4%Z) as Hpad
      by (vm_compute; reflexivity).
    split; [reflexivity|]. split; [exact Hpad|].
    intros Hinv. specialize (Hinv 0 _PAD). destruct Hinv as [Hinv _].
    specialize (Hinv eq_refl). rewrite Hpad in Hinv. discriminate Hinv.
  - eexists _, _. split; [reflexivity|].
    assert (map (strip bytes_isspace)
              (readlines
                 (create_vocabulary two_line_corpus 10 (Some (fun line => [line])) false))
            = [_PAD; _GO; _EOS; _UNK; "a"; ""; "b"; ""]) as -> by (vm_compute; reflexivity).
    assert (dict_of_enumerate [_PAD; _GO; _EOS; _UNK; "a"; ""; "b"; ""] !! EmptyString
            = Some 7%Z) as Hempty by (vm_compute; reflexivity).
    split; [reflexivity|]. split; [exact Hempty|].
    intros Hinv. specialize (Hinv 5 EmptyString). destruct Hinv as [Hinv _].
    specialize (Hinv eq_refl). rewrite Hempty in Hinv. discriminate Hinv.
Qed.

(** C2, amended: for a tokenizer whose tokens hold no whitespace (as those
    of the default tokenizer), the loaded list is the built vocabulary and
    every entry of the loaded mapping is inverted by the list; when no
    corpus word is a start symbol, the mapping and the list are exact
    inverses. *)
Theorem vocabulary_inverse (data : string) (max_vocabulary_size : Z)
    (tokenizer : option (string -> list string)) (normalize_digits : bool) :
  (∀ line w, w ∈ tokenize tokenizer line → no_space w = true) →
  ∃ vocab rev_vocab,
    initialize_vocabulary
      (Some (create_vocabulary data max_vocabulary_size tokenizer normalize_digits))
    = Ok (vocab, rev_vocab) ∧
    rev_vocab = create_vocab_list data max_vocabulary_size tokenizer normalize_digits ∧
    (∀ t id, vocab !! t = Some id → ∃ i, id = Z.of_nat i ∧ rev_vocab !! i = Some t) ∧
    ((∀ w, w ∈ corpus_words tokenizer normalize_digits data → w ∉ _START_VOCAB) →
     exact_inverses vocab rev_vocab).
Proof.
  intros Hclean. eexists _, _. split; [reflexivity|].
  unfold create_vocabulary.
  rewrite strip_readlines_write_vocabulary by (apply create_vocab_list_no_space, Hclean).
  split; [reflexivity|]. split.
  - apply dict_of_enumerate_Some.
  - intros Hfresh. apply exact_inverses_NoDup, create_vocab_list_NoDup, Hfresh.
Qed.

Lemma vocabulary_inverse_witness :
  ∃ vocab rev_vocab,
    initialize_vocabulary (Some (create_vocabulary small_corpus 7 None true))
    = Ok (vocab, rev_vocab) ∧
    rev_vocab = create_vocab_list small_corpus 7 None true ∧
    exact_inverses vocab rev_vocab.
Proof.
  destruct (vocabulary_inverse small_corpus 7 None true)
    as (vocab & rev_vocab & Hinit & Hrev & _ & Hinv).
  - intros line w. apply basic_tokenizer_no_space.
  - exists vocab, rev_vocab. split; [exact Hinit|]. split; [exact Hrev|].
    apply Hinv. intros w Hw Hstart.
    assert (corpus_words None true small_corpus
            = ["b"; "a"; "a"; "c"; "b"; "c"; "00"; "00"]) as Hws by (vm_compute; reflexivity).
    rewrite Hws in Hw.
    repeat (apply elem_of_cons in Hw as [->|Hw]; [absurd_member Hstart|]).
    inversion Hw.
Defined.

Example vocabulary_inverse_small :
  ∃ vocab rev_vocab,
    initialize_vocabulary (Some (create_vocabulary small_corpus 7 None true))
    = Ok (vocab, rev_vocab) ∧
    rev_vocab = ["_PAD"; "_GO"; "_EOS"; "_UNK"; "b"; "a"; "c"] ∧
    vocab !! "c" = Some 6%Z ∧ vocab !! "00" = None.
Proof. eexists _, _. split; [reflexivity|]. vm_compute. auto. Qed.

Lemma create_vocab_list_loaded data max_vocabulary_size tokenizer normalize_digits :
  (∀ line w, w ∈ tokenize tokenizer line → no_space w = true) →
  initialize_vocabulary
    (Some (create_vocabulary data max_vocabulary_size tokenizer normalize_digits))
  = Ok (dict_of_enumerate
          (create_vocab_list data max_vocabulary_size tokenizer normalize_digits),
        create_vocab_list data max_vocabulary_size tokenizer normalize_digits).
Proof.
  intros Hclean. unfold initialize_vocabulary, create_vocabulary.
  rewrite strip_readlines_write_vocabulary by (apply create_vocab_list_no_space, Hclean).
  reflexivity.
Qed.

(** C6: for a size limit of at least 4 and a tokenizer whose tokens hold
    no whitespace (as those of the default tokenizer), the vocabulary file
    that [create_vocabulary] writes has
    [min(max_vocabulary_size, 4 + number of distinct corpus words)] lines,
    the first four of them [_PAD], [_GO], [_EOS], [_UNK] in this order,
    and so has the list that [initialize_vocabulary] loads from the file,
    whatever the corpus. *)
Theorem create_vocabulary_size (data : string) (max_vocabulary_size : Z)
    (tokenizer : option (string -> list string)) (normalize_digits : bool) :
  (4 ≤ max_vocabulary_size)%Z →
  (∀ line w, w ∈ tokenize tokenizer line → no_space w = true) →
  let vocabulary_file :=
    create_vocabulary data max_vocabulary_size tokenizer normalize_digits in
  let size :=
    Z.min max_vocabulary_size
          (Z.of_nat (4 + distinct (corpus_words tokenizer normalize_digits data))) in
  Z.of_nat (length (readlines vocabulary_file)) = size ∧
  take 4 (readlines vocabulary_file)
  = map (fun w => w +:+ String newline EmptyString) [_PAD; _GO; _EOS; _UNK] ∧
  ∃ vocab rev_vocab,
    initialize_vocabulary (Some vocabulary_file) = Ok (vocab, rev_vocab) ∧
    Z.of_nat (length rev_vocab) = size ∧
    take 4 rev_vocab = [_PAD; _GO; _EOS; _UNK].
Proof.
  intros Hmax Hclean vocabulary_file size. subst vocabulary_file size.
  destruct (create_vocab_list_size data max_vocabulary_size tokenizer normalize_digits Hmax)
    as [Hlen Hstart].
  pose proof (create_vocab_list_no_space data max_vocabulary_size tokenizer normalize_digits
                Hclean) as Hwords.
  unfold create_vocabulary at 1 2. rewrite (readlines_write_vocabulary _ Hwords).
  split; [rewrite length_map; exact Hlen|]. split.
  - change (map ?f ?l) with (f <$> l). rewrite <- fmap_take, Hstart. reflexivity.
  - eexists _, _. split; [apply create_vocab_list_loaded, Hclean|].
    split; [exact Hlen|exact Hstart].
Qed.

Lemma create_vocabulary_size_witness :
  let vocabulary_file := create_vocabulary small_corpus 6 None true in
  let size := Z.min 6 (Z.of_nat (4 + distinct (corpus_words None true small_corpus))) in
  Z.of_nat (length (readlines vocabulary_file)) = size ∧
  take 4 (readlines vocabulary_file)
  = map (fun w => w +:+ String newline EmptyString) [_PAD; _GO; _EOS; _UNK] ∧
  ∃ vocab rev_vocab,
    initialize_vocabulary (Some vocabulary_file) = Ok (vocab, rev_vocab) ∧
    Z.of_nat (length rev_vocab) = size ∧
    take 4 rev_vocab = [_PAD; _GO; _EOS; _UNK].
Proof.
  apply (create_vocabulary_size small_corpus 6 None true).
  - lia.
  - intros line w. apply basic_tokenizer_no_space.
Defined.

(** The file of the limit 6 for the small corpus, whose four distinct words
    are cut to two. *)
Example create_vocabulary_small_file :
  readlines (create_vocabulary small_corpus 6 None true)
  = map (fun w => w +:+ String newline EmptyString)
        ["_PAD"; "_GO"; "_EOS"; "_UNK"; "b"; "a"].
Proof. vm_compute. reflexivity. Qed.

(** A token that holds a newline takes two lines of the file: with a
    tokenizer that keeps the line as it is, the file of a corpus of two
    distinct words has 8 lines. *)
Example create_vocabulary_newline_tokens :
  length (readlines
            (create_vocabulary two_line_corpus 10 (Some (fun line => [line])) false)) = 8 ∧
  4 + distinct (corpus_words (Some (fun line => [line])) false two_line_corpus) = 6.
Proof. vm_compute. auto. Qed.

(** ** Frequency analyzer *)

Lemma frequency_loop_parsed (lines : list string) (idss : list (list Z)) (d : gmap Z nat) :
  parse_lines lines = Ok idss → frequency_loop d lines = Ok (count_ids d idss).
Proof.
  revert idss d. induction lines as [|line lines IH]; intros idss d; simpl.
  - intros [= <-]. reflexivity.
  - destruct (line_ids line) as [ids|e]; simpl; [|discriminate].
    destruct (parse_lines lines) as [idss'|e]; simpl; [|discriminate].
    intros [= <-]. simpl. apply IH. reflexivity.
Qed.

Lemma parse_lines_length (lines : list string) (idss : list (list Z)) :
  parse_lines lines = Ok idss → length idss = length lines.
Proof.
  revert idss. induction lines as [|line lines IH]; intros idss; simpl.
  - intros [= <-]. reflexivity.
  - destruct (line_ids line) as [ids|e]; simpl; [|discriminate].
    destruct (parse_lines lines) as [idss'|e]; simpl; [|discriminate].
    intros [= <-]. simpl. f_equal. apply IH. reflexivity.
Qed.

Lemma id_occurrences_app (id : Z) (l1 l2 : list Z) :
  id_occurrences id (l1 ++ l2) = id_occurrences id l1 + id_occurrences id l2.
Proof. induction l1 as [|x l1 IH]; simpl; [reflexivity|]. rewrite IH. lia. Qed.

Lemma id_occurrences_le (id : Z) (l : list Z) : id_occurrences id l ≤ length l.
Proof. induction l as [|x l IH]; simpl; [lia|]. destruct (x =? id)%Z; lia. Qed.

Lemma id_occurrences_pos (id : Z) (l : list Z) : 0 < id_occurrences id l ↔ id ∈ l.
Proof.
  induction l as [|x l IH]; simpl.
  - split; [lia|]. intros H. inversion H.
  - rewrite elem_of_cons. destruct (Z.eqb_spec x id) as [->|Hne].
    + split; [auto|lia].
    + simpl. rewrite IH. split; [auto|]. intros [->|H]; [congruence|assumption].
Qed.

Lemma freq_incr_get0 (d : gmap Z nat) (w id : Z) :
  get0 (freq_incr w d) id = (if (w =? id)%Z then 1 else 0) + get0 d id.
Proof.
  unfold get0, freq_incr. destruct (Z.eqb_spec w id) as [->|Hne].
  - rewrite lookup_insert_eq. reflexivity.
  - rewrite lookup_insert_ne by assumption. reflexivity.
Qed.

Lemma freq_incr_is_Some (d : gmap Z nat) (w id : Z) :
  is_Some (freq_incr w d !! id) ↔ w = id ∨ is_Some (d !! id).
Proof.
  unfold freq_incr. destruct (decide (w = id)) as [->|Hne].
  - rewrite lookup_insert_eq. split; [auto|eauto].
  - rewrite lookup_insert_ne by assumption. split; [auto|]. intros [?|?]; [congruence|assumption].
Qed.

Lemma freq_incr_positive (d : gmap Z nat) (w : Z) :
  (∀ id c, d !! id = Some c → 0 < c) →
  ∀ id c, freq_incr w d !! id = Some c → 0 < c.
Proof.
  intros Hpos id c. unfold freq_incr. destruct (decide (w = id)) as [->|Hne].
  - rewrite lookup_insert_eq. intros [= <-]. lia.
  - rewrite lookup_insert_ne by assumption. apply Hpos.
Qed.

Lemma freq_total_insert (d : gmap Z nat) (w : Z) (v : nat) :
  freq_total (<[w := v]> d) + get0 d w = v + freq_total d.
Proof.
  unfold freq_total, get0.
  assert (∀ z1 z2 y : nat, z1 + (z2 + y) = z2 + (z1 + y)) as Hcomm by (intros; lia).
  destruct (d !! w) as [c|] eqn:Hw; simpl.
  - rewrite <- (insert_delete_eq d w v).
    rewrite map_fold_insert_L; [|intros; apply Hcomm|apply lookup_delete_eq].
    rewrite (map_fold_delete_L _ _ w c d); [lia|intros; apply Hcomm|assumption].
  - rewrite map_fold_insert_L; [lia|intros; apply Hcomm|assumption].
Qed.

Lemma freq_incr_total (d : gmap Z nat) (w : Z) :
  freq_total (freq_incr w d) = S (freq_total d).
Proof.
  unfold freq_incr. pose proof (freq_total_insert d w (S (default 0 (d !! w)))) as H.
  unfold get0 in H. lia.
Qed.

Lemma count_line_get0 (words : list Z) (d : gmap Z nat) (id : Z) :
  get0 (foldl (fun d word => freq_incr word d) d words) id
  = get0 d id + id_occurrences id words.
Proof.
  revert d. induction words as [|w words IH]; intros d; simpl; [lia|].
  rewrite IH, freq_incr_get0. lia.
Qed.

Lemma count_line_is_Some (words : list Z) (d : gmap Z nat) (id : Z) :
  is_Some (foldl (fun d word => freq_incr word d) d words !! id)
  ↔ is_Some (d !! id) ∨ id ∈ words.
Proof.
  revert d. induction words as [|w words IH]; intros d; simpl.
  - split; [auto|]. intros [H|H]; [assumption|inversion H].
  - rewrite IH, freq_incr_is_Some, elem_of_cons. intuition congruence.
Qed.

Lemma count_line_total (words : list Z) (d : gmap Z nat) :
  freq_total (foldl (fun d word => freq_incr word d) d words)
  = freq_total d + length words.
Proof.
  revert d. induction words as [|w words IH]; intros d; simpl; [lia|].
  rewrite IH, freq_incr_total. lia.
Qed.

Lemma count_ids_get0 (idss : list (list Z)) (d : gmap Z nat) (id : Z) :
  get0 (count_ids d idss) id = get0 d id + id_count idss id.
Proof.
  unfold id_count. revert d. induction idss as [|words idss IH]; intros d; simpl.
  - destruct (id =? 2)%Z; lia.
  - unfold count_ids in *. simpl. rewrite IH, count_line_get0, freq_incr_get0.
    rewrite id_occurrences_app, (Z.eqb_sym 2 id). destruct (id =? 2)%Z; lia.
Qed.

Lemma count_ids_is_Some (idss : list (list Z)) (d : gmap Z nat) (id : Z) :
  is_Some (count_ids d idss !! id)
  ↔ is_Some (d !! id) ∨ id ∈ concat idss ∨ (id = 2%Z ∧ idss ≠ []).
Proof.
  revert d. induction idss as [|words idss IH]; intros d; simpl.
  - split; [auto|]. intros [H|[H|[_ H]]]; [assumption|inversion H|congruence].
  - unfold count_ids in *. simpl.
    rewrite IH, count_line_is_Some, freq_incr_is_Some, elem_of_app.
    assert (words :: idss ≠ []) as Hcons by discriminate.
    split.
    + intros [[[<-|H]|H]|[H|[H _]]]; auto 6.
    + intros [H|[[H|H]|[H _]]]; auto 6.
Qed.

Lemma count_ids_total (idss : list (list Z)) (d : gmap Z nat) :
  freq_total (count_ids d idss) = freq_total d + total_count idss.
Proof.
  unfold total_count. revert d. induction idss as [|words idss IH]; intros d; simpl; [lia|].
  unfold count_ids in *. simpl. rewrite IH, count_line_total, freq_incr_total, length_app. lia.
Qed.

Lemma id_count_pos (idss : list (list Z)) (id : Z) :
  0 < id_count idss id ↔ id ∈ concat idss ∨ (id = 2%Z ∧ idss ≠ []).
Proof.
  unfold id_count. rewrite <- id_occurrences_pos.
  destruct (Z.eqb_spec id 2) as [->|Hne].
  - destruct idss as [|words idss]; simpl.
    + split; [lia|]. intros [H|[_ H]]; [lia|congruence].
    + split; [|lia]. intros _. right. split; [reflexivity|discriminate].
  - split; [lia|]. intros [H|[H _]]; [lia|congruence].
Qed.

Lemma id_count_le_total (idss : list (list Z)) (id : Z) :
  id_count idss id ≤ total_count idss.
Proof.
  unfold id_count, total_count.
  pose proof (id_occurrences_le id (concat idss)). destruct (id =? 2)%Z; lia.
Qed.

(** The dict returned by [frequency] holds exactly the ids of positive
    count, each with its count. *)
Lemma frequency_counts (train_file : list string) (idss : list (list Z)) :
  parse_lines train_file = Ok idss → train_file ≠ [] →
  frequency train_file = Ok (count_ids (<[2%Z := 0]> ∅) idss) ∧
  (∀ id, count_ids (<[2%Z := 0]> ∅) idss !! id =
         if id_count idss id =? 0 then None else Some (id_count idss id)) ∧
  freq_total (count_ids (<[2%Z := 0]> ∅) idss) = total_count idss.
Proof.
  intros Hparse Hne.
  assert (idss ≠ []) as Hne'.
  { apply parse_lines_length in Hparse. destruct idss; [|discriminate].
    destruct train_file; [congruence|discriminate]. }
  split; [apply frequency_loop_parsed, Hparse|]. split.
  - intros id.
    pose proof (count_ids_get0 idss (<[2%Z := 0]> ∅) id) as Hget.
    pose proof (count_ids_is_Some idss (<[2%Z := 0]> ∅) id) as Hsome.
    assert (get0 (<[2%Z := 0]> ∅) id = 0) as H0.
    { unfold get0. destruct (decide (2%Z = id)) as [<-|Hid].
      - rewrite lookup_insert_eq. reflexivity.
      - rewrite lookup_insert_ne by assumption. rewrite lookup_empty. reflexivity. }
    rewrite H0 in Hget. simpl in Hget. unfold get0 in Hget.
    assert (is_Some ((<[2%Z := 0]> ∅ : gmap Z nat) !! id) → id = 2%Z) as Hinit.
    { destruct (decide (2%Z = id)) as [<-|Hid]; [reflexivity|].
      rewrite lookup_insert_ne by assumption. rewrite lookup_empty.
      intros [? H]. discriminate H. }
    destruct (Nat.eqb_spec (id_count idss id) 0) as [Hz|Hnz].
    + apply eq_None_not_Some. intros H. apply Hsome in H.
      assert (0 < id_count idss id); [|lia].
      apply id_count_pos. destruct H as [H|H]; [|assumption].
      right. split; [apply Hinit, H|assumption].
    + destruct (count_ids _ idss !! id) as [c|] eqn:Hc; simpl in Hget; [congruence|lia].
  - rewrite count_ids_total. unfold freq_total. rewrite map_fold_insert_L.
    + rewrite map_fold_empty. lia.
    + intros. lia.
    + apply lookup_empty.
Qed.

Lemma insert_asc_perm (x : Z) (l : list Z) : insert_asc x l ≡ₚ x :: l.
Proof.
  induction l as [|y l IH]; simpl; [reflexivity|].
  destruct (y <? x)%Z; [|reflexivity]. rewrite IH. apply Permutation_swap.
Qed.

Lemma sorted_keys_elem (freq : gmap Z nat) (id : Z) :
  id ∈ sorted_keys freq ↔ is_Some (freq !! id).
Proof.
  unfold sorted_keys.
  assert (∀ l : list Z, foldr insert_asc [] l ≡ₚ l) as Hperm.
  { induction l as [|x l IH]; simpl; [reflexivity|]. rewrite insert_asc_perm, IH. reflexivity. }
  rewrite Hperm. split.
  - intros H. apply list_elem_of_In, in_map_iff in H as ([k c] & <- & H).
    apply list_elem_of_In, elem_of_map_to_list in H. simpl. eauto.
  - intros [c Hc]. apply list_elem_of_In, in_map_iff. exists (id, c). split; [reflexivity|].
    apply list_elem_of_In, elem_of_map_to_list. assumption.
Qed.

Lemma weight_lines_positive (freq : gmap Z nat) (s : nat) (indexs : list Z) :
  (∀ i, i ∈ indexs → 0 < get0 freq i) →
  weight_lines freq s indexs = Ok (map (fun i => (i, weight_value s (get0 freq i))) indexs).
Proof.
  induction indexs as [|i indexs IH]; intros Hpos; simpl; [reflexivity|].
  fold (get0 freq i). unfold weight_of.
  assert (0 < get0 freq i) as Hi by (apply Hpos; left).
  destruct (Nat.eqb_spec (get0 freq i) 0) as [Hz|_]; [lia|]. simpl.
  rewrite IH; [reflexivity|]. intros k Hk. apply Hpos. right. assumption.
Qed.

Lemma weight_value_ge_1 (s count : nat) :
  0 < count → count ≤ s → (1 <= weight_value s count)%Q.
Proof.
  intros Hpos Hle. unfold weight_value. apply Qle_shift_div_l.
  - change 0%Q with (inject_Z 0). rewrite <- Zlt_Qlt. lia.
  - rewrite Qmult_1_l. rewrite <- Zle_Qle. lia.
Qed.

Lemma weight_value_rarer (s count1 count2 : nat) :
  0 < count1 → count1 < count2 → count2 ≤ s →
  (weight_value s count2 < weight_value s count1)%Q.
Proof.
  intros Hpos Hlt Hle. unfold weight_value.
  assert (0 < inject_Z (Z.of_nat count1))%Q as H1
    by (change 0%Q with (inject_Z 0); rewrite <- Zlt_Qlt; lia).
  assert (0 < inject_Z (Z.of_nat count2))%Q as H2
    by (change 0%Q with (inject_Z 0); rewrite <- Zlt_Qlt; lia).
  apply Qlt_shift_div_l; [exact H1|].
  assert (inject_Z (Z.of_nat s) / inject_Z (Z.of_nat count2) * inject_Z (Z.of_nat count1)
          == inject_Z (Z.of_nat s) * inject_Z (Z.of_nat count1) / inject_Z (Z.of_nat count2))%Q
    as -> by (field; intros Hz; rewrite Hz in H2; inversion H2).
  apply Qlt_shift_div_r; [exact H2|].
  rewrite <- !inject_Z_mult, <- Zlt_Qlt. nia.
Qed.

(** C4: on a non-empty ids file, [frequency] counts every id of the file
    and the end symbol once more per line, and [output_weight] writes for
    every counted id the weight [total / count]; every weight is at least
    1 and an id of smaller count has a strictly larger weight. *)
Theorem output_weight_spec (train_file : list string) (idss : list (list Z)) :
  parse_lines train_file = Ok idss → train_file ≠ [] →
  ∃ freq table,
    frequency train_file = Ok freq ∧
    output_weight train_file = Ok table ∧
    (∀ id, freq !! id = if id_count idss id =? 0 then None else Some (id_count idss id)) ∧
    (∀ id w, (id, w) ∈ table ↔
             0 < id_count idss id ∧ w = weight_value (total_count idss) (id_count idss id)) ∧
    (∀ id w, (id, w) ∈ table → (1 <= w)%Q) ∧
    (∀ id1 w1 id2 w2, (id1, w1) ∈ table → (id2, w2) ∈ table →
       id_count idss id1 < id_count idss id2 → (w2 < w1)%Q).
Proof.
  intros Hparse Hne.
  destruct (frequency_counts train_file idss Hparse Hne) as (Hfreq & Hlookup & Htotal).
  set (freq := count_ids (<[2%Z := 0]> ∅) idss) in *.
  assert (∀ id, get0 freq id = id_count idss id) as Hget.
  { intros id. unfold get0. rewrite Hlookup.
    destruct (Nat.eqb_spec (id_count idss id) 0) as [->|_]; reflexivity. }
  assert (∀ id, id ∈ sorted_keys freq ↔ 0 < id_count idss id) as Hkeys.
  { intros id. rewrite sorted_keys_elem, Hlookup.
    destruct (Nat.eqb_spec (id_count idss id) 0) as [Hz|Hnz].
    - split; [intros [? H]; discriminate H|lia].
    - split; [lia|eauto]. }
  set (table := map (fun i => (i, weight_value (total_count idss) (get0 freq i)))
                    (sorted_keys freq)).
  assert (output_weight train_file = Ok table) as Hout.
  { unfold output_weight. rewrite Hfreq. simpl. fold (freq_total freq). rewrite Htotal.
    apply weight_lines_positive. intros i Hi. rewrite Hget. apply Hkeys, Hi. }
  assert (∀ id w, (id, w) ∈ table ↔
            0 < id_count idss id ∧ w = weight_value (total_count idss) (id_count idss id))
    as Htable.
  { intros id w. unfold table. rewrite list_elem_of_In, in_map_iff. split.
    - intros (i & [= -> <-] & Hi). apply list_elem_of_In, Hkeys in Hi.
      rewrite Hget. auto.
    - intros [Hpos ->]. exists id. rewrite Hget. split; [reflexivity|].
      apply list_elem_of_In, Hkeys, Hpos. }
  exists freq, table. do 4 (split; [assumption|]). split.
  - intros id w H. apply Htable in H as [Hpos ->].
    apply weight_value_ge_1; [assumption|apply id_count_le_total].
  - intros id1 w1 id2 w2 H1 H2 Hlt.
    apply Htable in H1 as [Hpos1 ->]. apply Htable in H2 as [Hpos2 ->].
    apply weight_value_rarer; [assumption|assumption|apply id_count_le_total].
Qed.

Lemma output_weight_spec_witness :
  ∃ freq table,
    frequency one_line_ids_file = Ok freq ∧
    output_weight one_line_ids_file = Ok table ∧
    (∀ id, freq !! id = if id_count [[3; 3; 5]%Z] id =? 0 then None
                        else Some (id_count [[3; 3; 5]%Z] id)) ∧
    (∀ id w, (id, w) ∈ table ↔
             0 < id_count [[3; 3; 5]%Z] id ∧
             w = weight_value (total_count [[3; 3; 5]%Z]) (id_count [[3; 3; 5]%Z] id)) ∧
    (∀ id w, (id, w) ∈ table → (1 <= w)%Q) ∧
    (∀ id1 w1 id2 w2, (id1, w1) ∈ table → (id2, w2) ∈ table →
       id_count [[3; 3; 5]%Z] id1 < id_count [[3; 3; 5]%Z] id2 → (w2 < w1)%Q).
Proof.
  apply (output_weight_spec one_line_ids_file [[3; 3; 5]%Z]).
  - reflexivity.
  - discriminate.
Defined.

(** The one-line file [3 3 5]: counts 3:2, 5:1 and 2:1, total 4, and the
    weights 2, 4 and 4. *)
Example frequency_one_line :
  ∃ freq, frequency one_line_ids_file = Ok freq ∧
    freq !! 3%Z = Some 2 ∧ freq !! 5%Z = Some 1 ∧ freq !! 2%Z = Some 1 ∧
    freq !! 4%Z = None ∧ freq_total freq = 4.
Proof. eexists. split; [reflexivity|]. vm_compute. auto. Qed.

Example output_weight_one_line :
  output_weight one_line_ids_file = Ok [(2%Z, 4 # 1); (3%Z, 4 # 2); (5%Z, 4 # 1)]%Q ∧
  (4 # 2 == 2)%Q.
Proof. split; [vm_compute; reflexivity|reflexivity]. Qed.

Example output_weight_empty_file : output_weight [] = Raise ZeroDivisionError.
Proof. vm_compute. reflexivity. Qed.

Example frequency_malformed :
  frequency ["3 x 5" +:+ String newline EmptyString] = Raise ValueError.
Proof. vm_compute. reflexivity. Qed.

(** ** Rare-word reweighting *)

Lemma check_rare_weights_outcome {float : Type} (target_outputs : ndarray)
    (vocab_weights : gmap Z float) (alpha : float) (log_weight : bool)
    (alpha_decay : float) (n_decay : Z) :
  check_rare_weights target_outputs vocab_weights alpha log_weight alpha_decay n_decay
  = match shape target_outputs with
    | [_; _] => Raise NameError
    | _ => Raise ValueError
    end.
Proof.
  unfold check_rare_weights.
  destruct (shape target_outputs) as [|m [|n [|k rest]]]; reflexivity.
Qed.

(** C3, on the code: the weights of the claim are never computed.  On
    every two-dimensional batch, whatever the weight table, the exponent
    and [log_weight], [check_rare_weights] raises [NameError] at its first
    loop statement and returns nothing; on an array of any other dimension
    it raises [ValueError].  So it does on the batch of the row [7, 9]
    with the weight 2 for the id 7 and the exponent 1, for which the claim
    has the output weights 1 and 0. *)
Theorem check_rare_weights_row_sum_unreached :
  (∀ (float : Type) (m n : nat) (ids : list Z) (vocab_weights : gmap Z float)
     (alpha alpha_decay : float) (log_weight : bool) (n_decay : Z),
     check_rare_weights {| shape := [m; n]; items := ids |}
                        vocab_weights alpha log_weight alpha_decay n_decay
     = Raise NameError) ∧
  (∀ (float : Type) (target_outputs : ndarray) (vocab_weights : gmap Z float)
     (alpha alpha_decay : float) (log_weight : bool) (n_decay : Z),
     length (shape target_outputs) ≠ 2 →
     check_rare_weights target_outputs vocab_weights alpha log_weight alpha_decay n_decay
     = Raise ValueError) ∧
  check_rare_weights one_row_batch sample_weights 1%Q false 1%Q 0 = Raise NameError.
Proof.
  split; [|split].
  - intros. rewrite check_rare_weights_outcome. reflexivity.
  - intros float target_outputs vocab_weights alpha alpha_decay log_weight n_decay Hdim.
    rewrite check_rare_weights_outcome.
    destruct (shape target_outputs) as [|m [|n [|k rest]]]; try reflexivity.
    exfalso. apply Hdim. reflexivity.
  - reflexivity.
Qed.



(** * Further properties *)

(** ** Splitting and stripping *)

Section splitting.
Variable isspace : ascii -> bool.

Lemma free_of_snoc (w : string) (c : ascii) :
  free_of isspace w = true → isspace c = false →
  free_of isspace (w +:+ String c EmptyString) = true.
Proof.
  induction w as [|c' w IH]; intros Hw Hc.
  - simpl. rewrite Hc. reflexivity.
  - rewrite append_cons. simpl in *. apply andb_true_iff in Hw as [Hc' Hw].
    rewrite Hc', IH by assumption. reflexivity.
Qed.

Lemma snoc_not_empty (w : string) (c : ascii) :
  is_empty (w +:+ String c EmptyString) = false.
Proof. destruct w; reflexivity. Qed.

Lemma is_empty_true (w : string) : is_empty w = true ↔ w = EmptyString.
Proof. destruct w; simpl; split; congruence. Qed.

(** [split] yields tokens, whatever run [cur] of non-whitespace it starts
    from. *)
Lemma split_go_tokens (s cur : string) :
  free_of isspace cur = true →
  Forall (is_token isspace) (split_go isspace cur s).
Proof.
  revert cur. induction s as [|c s IH]; intros cur Hcur; simpl.
  - destruct cur as [|c' cur']; [constructor|].
    constructor; [|constructor]. split; [discriminate|assumption].
  - destruct (isspace c) eqn:Hc.
    + destruct cur as [|c' cur']; simpl; [apply IH; reflexivity|].
      constructor; [split; [discriminate|assumption]|]. apply IH. reflexivity.
    + apply IH, free_of_snoc; assumption.
Qed.

(** Leading and trailing whitespace does not change the result of
    [split]. *)
Lemma split_go_lstrip (s : string) :
  split_go isspace EmptyString (lstrip isspace s) = split_go isspace EmptyString s.
Proof.
  induction s as [|c s IH]; [reflexivity|]. simpl.
  destruct (isspace c) eqn:Hc; [exact IH|]. simpl. rewrite Hc. reflexivity.
Qed.

Lemma split_go_rstrip (s cur : string) :
  split_go isspace cur (rstrip isspace s) = split_go isspace cur s.
Proof.
  revert cur. induction s as [|c s IH]; intros cur; [reflexivity|]. simpl.
  destruct (isspace c) eqn:Hc; simpl.
  - destruct (is_empty (rstrip isspace s)) eqn:He; simpl.
    + apply is_empty_true in He.
      pose proof (IH EmptyString) as H0. rewrite He in H0. simpl in H0.
      rewrite <- H0. destruct (is_empty cur); reflexivity.
    + rewrite Hc. rewrite IH. reflexivity.
  - rewrite Hc. apply IH.
Qed.

Lemma split_strip (s : string) :
  split isspace (strip isspace s) = split isspace s.
Proof. unfold split, strip. rewrite split_go_rstrip. apply split_go_lstrip. Qed.

(** Reading a token extends the current run. *)
Lemma split_go_token (w cur rest : string) :
  free_of isspace w = true →
  split_go isspace cur (w +:+ rest) = split_go isspace (cur +:+ w) rest.
Proof.
  revert cur. induction w as [|c w IH]; intros cur Hw.
  - simpl. f_equal. clear. induction cur as [|c cur IH]; [reflexivity|].
    rewrite append_cons. f_equal. exact IH.
  - rewrite append_cons. simpl in *. apply andb_true_iff in Hw as [Hc Hw].
    apply negb_true_iff in Hc. rewrite Hc. rewrite IH by assumption.
    rewrite append_assoc. reflexivity.
Qed.

Hypothesis space_isspace : isspace (Ascii.ascii_of_nat 32) = true.

(** Splitting tokens joined by single spaces gives the tokens back. *)
Lemma split_go_join (ws : list string) (rest : string) :
  Forall (is_token isspace) ws →
  (∀ c rest', rest = String c rest' → isspace c = true) →
  split_go isspace EmptyString (join " " ws +:+ rest)
  = ws ++ split_go isspace EmptyString rest.
Proof.
  intros Hws Hrest. induction Hws as [|w ws [Hne Hw] Hws IH]; [reflexivity|].
  destruct ws as [|w' ws].
  - simpl join. rewrite split_go_token by assumption. simpl.
    destruct rest as [|c rest'].
    + simpl. destruct w; [congruence|reflexivity].
    + simpl. rewrite (Hrest c rest' eq_refl). destruct w; [congruence|reflexivity].
  - change (join " " (w :: w' :: ws)) with (w +:+ " " +:+ join " " (w' :: ws)).
    rewrite !append_assoc. rewrite split_go_token by assumption.
    change (" " +:+ join " " (w' :: ws) +:+ rest)
      with (String (Ascii.ascii_of_nat 32) (join " " (w' :: ws) +:+ rest)).
    simpl split_go. rewrite space_isspace.
    destruct w as [|c w]; [congruence|]. simpl. f_equal. exact IH.
Qed.

Lemma split_join (ws : list string) :
  Forall (is_token isspace) ws → split isspace (join " " ws) = ws.
Proof.
  intros Hws. unfold split.
  pose proof (split_go_join ws EmptyString Hws) as H.
  assert (∀ s : string, s +:+ EmptyString = s) as Hnil.
  { induction s as [|c s IH]; [reflexivity|]. rewrite append_cons. f_equal. exact IH. }
  rewrite Hnil in H. rewrite H; [|intros c r Hc; discriminate Hc].
  simpl. apply app_nil_r.
Qed.
End splitting.

(** ** Tokenizer *)

Lemma basic_tokenizer_Forall (sentence : string) :
  Forall (is_token bytes_isspace) (basic_tokenizer sentence).
Proof. unfold basic_tokenizer, split. apply split_go_tokens. reflexivity. Qed.

Lemma basic_tokenizer_split (sentence : string) :
  basic_tokenizer sentence = split bytes_isspace sentence.
Proof. apply split_strip. Qed.

(** X1: every token of [basic_tokenizer] is non-empty and holds no
    whitespace. *)
Theorem basic_tokenizer_tokens (sentence : string) :
  Forall (is_token bytes_isspace) (basic_tokenizer sentence).
Proof. apply basic_tokenizer_Forall. Qed.

(** X2: joining the tokens of a sentence by single spaces and tokenizing
    again gives the same tokens, and so does tokenizing the sentence
    without its first [strip]. *)
Theorem basic_tokenizer_join (sentence : string) :
  basic_tokenizer (join " " (basic_tokenizer sentence)) = basic_tokenizer sentence ∧
  basic_tokenizer sentence = split bytes_isspace sentence.
Proof.
  split.
  - unfold basic_tokenizer at 1. rewrite split_strip.
    apply split_join; [reflexivity|apply basic_tokenizer_Forall].
  - apply basic_tokenizer_split.
Qed.

Lemma normalize_digit_isspace (c : ascii) :
  bytes_isspace (if is_digit c then Ascii.ascii_of_nat 48 else c) = bytes_isspace c.
Proof. destruct c as [[] [] [] [] [] [] [] []]; reflexivity. Qed.

Lemma normalize_digits_sub_snoc (w : string) (c : ascii) :
  normalize_digits_sub (w +:+ String c EmptyString)
  = normalize_digits_sub w
    +:+ String (if is_digit c then Ascii.ascii_of_nat 48 else c) EmptyString.
Proof.
  induction w as [|c' w IH]; [reflexivity|].
  rewrite append_cons. simpl. rewrite append_cons. f_equal. exact IH.
Qed.

Lemma split_go_normalize (s cur : string) :
  split_go bytes_isspace (normalize_digits_sub cur) (normalize_digits_sub s)
  = map normalize_digits_sub (split_go bytes_isspace cur s).
Proof.
  revert cur. induction s as [|c s IH]; intros cur; simpl.
  - destruct cur; reflexivity.
  - rewrite normalize_digit_isspace. destruct (bytes_isspace c).
    + destruct cur; simpl; [apply (IH EmptyString)|]. f_equal. apply (IH EmptyString).
    + rewrite <- normalize_digits_sub_snoc. apply IH.
Qed.

Lemma basic_tokenizer_normalize (sentence : string) :
  basic_tokenizer (normalize_digits_sub sentence)
  = map normalize_digits_sub (basic_tokenizer sentence).
Proof.
  rewrite !basic_tokenizer_split.
  apply (split_go_normalize sentence EmptyString).
Qed.

Lemma normalize_digits_sub_idem (w : string) :
  normalize_digits_sub (normalize_digits_sub w) = normalize_digits_sub w.
Proof.
  induction w as [|c w IH]; [reflexivity|]. simpl. rewrite IH. f_equal.
  destruct (is_digit c) eqn:Hc; [reflexivity|]. rewrite Hc. reflexivity.
Qed.

(** X3: with the default tokenizer, encoding with [normalize_digits] is
    encoding the sentence whose digits are all replaced by 0, with or
    without [normalize_digits]: sentences that differ only in their digits
    get the same ids. *)
Theorem sentence_to_token_ids_normalize (sentence : string) (vocabulary : gmap string Z) :
  sentence_to_token_ids sentence vocabulary None true
  = sentence_to_token_ids (normalize_digits_sub sentence) vocabulary None false ∧
  sentence_to_token_ids sentence vocabulary None true
  = sentence_to_token_ids (normalize_digits_sub sentence) vocabulary None true.
Proof.
  rewrite !sentence_to_token_ids_map. unfold lookup_key, tokenize.
  rewrite basic_tokenizer_normalize, !map_map. split; [reflexivity|].
  apply map_ext. intros w. rewrite normalize_digits_sub_idem. reflexivity.
Qed.

(** ** The cut of the vocabulary *)

(** X4: the number of entries of the built vocabulary for every size
    limit: a limit from 0 on caps the list (below 4 it cuts into the start
    symbols), and a negative limit removes that many entries from the end
    of the list. *)
Theorem create_vocabulary_length_any (data : string) (max_vocabulary_size : Z)
    (tokenizer : option (string -> list string)) (normalize_digits : bool) :
  Z.of_nat (length (create_vocab_list data max_vocabulary_size tokenizer normalize_digits))
  = if (max_vocabulary_size <? 0)%Z
    then Z.max 0 (Z.of_nat (4 + distinct (corpus_words tokenizer normalize_digits data))
                  + max_vocabulary_size)
    else Z.min max_vocabulary_size
               (Z.of_nat (4 + distinct (corpus_words tokenizer normalize_digits data))).
Proof.
  rewrite create_vocab_list_cut.
  pose proof (full_vocab_list_length tokenizer normalize_digits data) as Hlen.
  rewrite <- Hlen.
  destruct (_ <? Z.of_nat _)%Z eqn:Hcut.
  - apply Z.ltb_lt in Hcut. unfold py_slice_to.
    destruct (max_vocabulary_size <? 0)%Z eqn:Hneg; rewrite length_take.
    + apply Z.ltb_lt in Hneg. lia.
    + apply Z.ltb_ge in Hneg. lia.
  - apply Z.ltb_ge in Hcut.
    replace (max_vocabulary_size <? 0)%Z with false by (symmetry; apply Z.ltb_ge; lia).
    lia.
Qed.

Lemma full_vocab_list_sorted_lookup tokenizer normalize_digits (data w : string) :
  w ∈ corpus_words tokenizer normalize_digits data →
  ∃ j, full_vocab_list tokenizer normalize_digits data !! (4 + j) = Some w ∧
       sorted_desc (vocab_get (count_words (corpus_words tokenizer normalize_digits data)))
         (dict_keys (count_words (corpus_words tokenizer normalize_digits data))) !! j
       = Some w.
Proof.
  intros Hw. apply count_words_keys_elem in Hw.
  rewrite <- (sorted_desc_perm
                (vocab_get (count_words (corpus_words tokenizer normalize_digits data)))) in Hw.
  apply list_elem_of_lookup_1 in Hw as (j & Hj). exists j. split; [|exact Hj].
  unfold full_vocab_list. rewrite lookup_app_r by (simpl; lia).
  replace (4 + j - length _START_VOCAB) with j by (simpl; lia). exact Hj.
Qed.

(** X5: the vocabulary keeps the most frequent words: a corpus word that
    the cut removed does not occur more often in the corpus than any word
    that the vocabulary holds after the start symbols. *)
Theorem create_vocabulary_keeps_most_frequent (data : string) (max_vocabulary_size : Z)
    (tokenizer : option (string -> list string)) (normalize_digits : bool)
    (a b : string) (i : nat) :
  create_vocab_list data max_vocabulary_size tokenizer normalize_digits !! i = Some a →
  4 ≤ i →
  b ∈ corpus_words tokenizer normalize_digits data →
  b ∉ create_vocab_list data max_vocabulary_size tokenizer normalize_digits →
  occurrences b (corpus_words tokenizer normalize_digits data)
  ≤ occurrences a (corpus_words tokenizer normalize_digits data).
Proof.
  intros Hi Hi4 Hb Hcut.
  destruct (create_vocab_list_prefix data max_vocabulary_size tokenizer normalize_digits)
    as (n & Hn).
  rewrite Hn in Hi, Hcut. apply lookup_take_Some in Hi as [Hi Hin].
  destruct (full_vocab_list_sorted_lookup _ _ _ _ Hb) as (j & Hfull & Hj).
  assert (n ≤ 4 + j) as Hnj.
  { destruct (le_lt_dec n (4 + j)) as [H|H]; [exact H|]. exfalso. apply Hcut.
    apply list_elem_of_lookup. exists (4 + j). rewrite lookup_take_lt by lia. exact Hfull. }
  unfold full_vocab_list in Hi. rewrite lookup_app_r in Hi by (simpl; lia).
  set (ws := corpus_words tokenizer normalize_digits data) in *.
  pose proof (sorted_desc_ranked (vocab_get (count_words ws)) (dict_keys (count_words ws)))
    as Hsorted.
  assert (ranked (vocab_get (count_words ws)) (dict_keys (count_words ws)) a b) as Hrank.
  { eapply (StronglySorted_lookup _ _ (i - length _START_VOCAB) j);
      [exact Hsorted|simpl; lia|exact Hi|exact Hj]. }
  unfold ranked in Hrank. rewrite !vocab_get_occurrences in Hrank.
  destruct Hrank as [Hlt|[Heq _]]; lia.
Qed.

Lemma create_vocabulary_keeps_most_frequent_witness :
  occurrences "12" (corpus_words None false small_corpus)
  ≤ occurrences "a" (corpus_words None false small_corpus).
Proof.
  apply (create_vocabulary_keeps_most_frequent small_corpus 6 None false "a" "12" 5).
  - reflexivity.
  - lia.
  - assert (corpus_words None false small_corpus
            = ["b"; "a"; "a"; "c"; "b"; "c"; "12"; "13"]) as -> by (vm_compute; reflexivity).
    do 6 right. left.
  - assert (create_vocab_list small_corpus 6 None false
            = ["_PAD"; "_GO"; "_EOS"; "_UNK"; "b"; "a"]) as -> by (vm_compute; reflexivity).
    intros H. absurd_member H.
Defined.

Lemma drop_take_app {A : Type} (l1 l2 : list A) (n : nat) :
  drop (length l1) (take n (l1 ++ l2)) = take (n - length l1) l2.
Proof.
  revert n. induction l1 as [|x l1 IH]; intros n; simpl.
  - rewrite Nat.sub_0_r. reflexivity.
  - destruct n as [|n]; simpl; [reflexivity|]. apply IH.
Qed.

(** X6: after its first four entries the built vocabulary holds corpus
    words only, each once; with a size limit of at least 4 plus the number
    of distinct words it holds every corpus word. *)
Theorem create_vocabulary_words (data : string) (max_vocabulary_size : Z)
    (tokenizer : option (string -> list string)) (normalize_digits : bool) :
  let vocab_list := create_vocab_list data max_vocabulary_size tokenizer normalize_digits in
  let ws := corpus_words tokenizer normalize_digits data in
  NoDup (drop 4 vocab_list) ∧
  (∀ w, w ∈ drop 4 vocab_list → w ∈ ws) ∧
  ((Z.of_nat (4 + distinct ws) ≤ max_vocabulary_size)%Z → ∀ w, w ∈ ws → w ∈ drop 4 vocab_list).
Proof.
  intros vocab_list ws. subst vocab_list.
  set (sorted := sorted_desc (vocab_get (count_words ws)) (dict_keys (count_words ws))).
  assert (NoDup sorted) as Hnd.
  { unfold sorted. rewrite sorted_desc_perm. apply count_words_keys_NoDup. }
  assert (∀ w, w ∈ sorted ↔ w ∈ ws) as Helem.
  { intros w. unfold sorted. rewrite sorted_desc_perm. apply count_words_keys_elem. }
  split; [|split].
  - destruct (create_vocab_list_prefix data max_vocabulary_size tokenizer normalize_digits)
      as (n & ->).
    unfold full_vocab_list. fold ws. fold sorted.
    pose proof (drop_take_app _START_VOCAB sorted n) as Hdrop.
    change (length _START_VOCAB) with 4 in Hdrop. rewrite Hdrop.
    rewrite <- (take_drop (n - 4) sorted) in Hnd.
    apply NoDup_app in Hnd as [Hnd _]. exact Hnd.
  - destruct (create_vocab_list_prefix data max_vocabulary_size tokenizer normalize_digits)
      as (n & ->).
    unfold full_vocab_list. fold ws. fold sorted.
    pose proof (drop_take_app _START_VOCAB sorted n) as Hdrop.
    change (length _START_VOCAB) with 4 in Hdrop. rewrite Hdrop.
    intros w Hw. apply Helem. eapply subseteq_take. exact Hw.
  - intros Hmax w Hw. rewrite create_vocab_list_cut.
    pose proof (full_vocab_list_length tokenizer normalize_digits data) as Hlen. fold ws in Hlen.
    replace (_ <? _)%Z with false by (symmetry; apply Z.ltb_ge; lia).
    unfold full_vocab_list. fold ws. fold sorted.
    change 4 with (length _START_VOCAB). rewrite drop_app_length. apply Helem, Hw.
Qed.

(** ** Loading and using a vocabulary *)

Lemma dict_of_enumerate_last (l : list string) (t : string) (i : nat) :
  dict_of_enumerate l !! t = Some (Z.of_nat i)
  ↔ l !! i = Some t ∧ ∀ j, i < j → l !! j ≠ Some t.
Proof.
  revert i. induction l as [|x l IH] using rev_ind; intros i.
  - unfold dict_of_enumerate. simpl. rewrite lookup_empty. split; [discriminate|].
    intros [H _]. discriminate H.
  - rewrite dict_of_enumerate_snoc. destruct (decide (x = t)) as [->|Hne].
    + rewrite lookup_insert_eq. split.
      * intros [= Hi]. apply Nat2Z.inj in Hi. subst i. split.
        -- rewrite lookup_app_r by lia. rewrite Nat.sub_diag. reflexivity.
        -- intros j Hj. rewrite lookup_ge_None_2; [discriminate|].
           rewrite length_app. simpl. lia.
      * intros [Hi Hlast]. f_equal. f_equal.
        pose proof (lookup_lt_Some _ _ _ Hi) as Hlt. rewrite length_app in Hlt. simpl in Hlt.
        destruct (decide (i = length l)) as [->|Hi']; [reflexivity|].
        exfalso. apply (Hlast (length l)); [lia|].
        rewrite lookup_app_r by lia. rewrite Nat.sub_diag. reflexivity.
    + rewrite lookup_insert_ne by assumption. rewrite IH. split.
      * intros [Hi Hlast]. pose proof (lookup_lt_Some _ _ _ Hi) as Hlt. split.
        -- rewrite lookup_app_l by assumption. exact Hi.
        -- intros j Hj Hc. apply lookup_app_Some in Hc as [Hc|[_ Hc]].
           ++ exact (Hlast j Hj Hc).
           ++ apply list_lookup_singleton_Some in Hc as [_ Hc]. congruence.
      * intros [Hi Hlast]. apply lookup_app_Some in Hi as [Hi|[_ Hi]].
        -- split; [exact Hi|]. intros j Hj Hc. apply (Hlast j Hj).
           rewrite lookup_app_l; [exact Hc|]. eapply lookup_lt_Some. exact Hc.
        -- apply list_lookup_singleton_Some in Hi as [_ Hi]. congruence.
Qed.

Lemma dict_of_enumerate_is_Some (l : list string) (t : string) :
  is_Some (dict_of_enumerate l !! t) ↔ t ∈ l.
Proof.
  induction l as [|x l IH] using rev_ind.
  - unfold dict_of_enumerate. simpl. rewrite lookup_empty. split.
    + intros [? H]. discriminate H.
    + intros H. inversion H.
  - rewrite dict_of_enumerate_snoc, elem_of_app, list_elem_of_singleton.
    destruct (decide (x = t)) as [->|Hne].
    + rewrite lookup_insert_eq. split; [auto|eauto].
    + rewrite lookup_insert_ne by assumption. rewrite IH.
      split; [auto|]. intros [H|H]; [exact H|congruence].
Qed.

(** X7: [initialize_vocabulary] maps a token to the number of the last
    line of the file that holds it: its keys are the tokens of the lines,
    and of a token on several lines only the last line number is kept. *)
Theorem initialize_vocabulary_last_line (content : string) :
  ∃ vocab rev_vocab,
    initialize_vocabulary (Some content) = Ok (vocab, rev_vocab) ∧
    (∀ t, is_Some (vocab !! t) ↔ t ∈ rev_vocab) ∧
    (∀ t id, vocab !! t = Some id ↔
             ∃ i, id = Z.of_nat i ∧ rev_vocab !! i = Some t ∧
                  ∀ j, i < j → rev_vocab !! j ≠ Some t).
Proof.
  eexists _, _. split; [reflexivity|]. split.
  - apply dict_of_enumerate_is_Some.
  - intros t id. split.
    + intros H. destruct (dict_of_enumerate_Some _ _ _ H) as (i & -> & _).
      exists i. split; [reflexivity|]. apply dict_of_enumerate_last. exact H.
    + intros (i & -> & H). apply dict_of_enumerate_last. exact H.
Qed.

(** The ids of a sentence, with the words they stand for. *)
Lemma sentence_to_token_ids_Forall2 sentence (vocabulary : gmap string Z) tokenizer
    normalize_digits :
  Forall2 (fun w id => id = default UNK_ID (vocabulary !! lookup_key normalize_digits w))
          (tokenize tokenizer sentence)
          (sentence_to_token_ids sentence vocabulary tokenizer normalize_digits).
Proof.
  rewrite sentence_to_token_ids_map.
  induction (tokenize tokenizer sentence) as [|w ws IH]; simpl; constructor; auto.
Qed.

Lemma py_getitem_lookup {A : Type} (l : list A) (i : nat) (x : A) :
  l !! i = Some x → py_getitem l (Z.of_nat i) = Ok x.
Proof.
  intros H. unfold py_getitem. cbv zeta.
  assert ((Z.of_nat i <? 0)%Z = false) as E by (apply Z.ltb_ge; lia).
  rewrite !E, Nat2Z.id, H. reflexivity.
Qed.

(** X8: with the mapping and the list that [initialize_vocabulary] loads
    from any file, every id of an encoded sentence either indexes the list
    at the word it encodes (the token, with its digits normalized if
    asked), or is [UNK_ID] for a word that is not in the vocabulary. *)
Theorem encode_decode_words (content sentence : string)
    (tokenizer : option (string -> list string)) (normalize_digits : bool) :
  ∃ vocab rev_vocab,
    initialize_vocabulary (Some content) = Ok (vocab, rev_vocab) ∧
    Forall2 (fun w id =>
               py_getitem rev_vocab id = Ok (lookup_key normalize_digits w) ∨
               (¬ (lookup_key normalize_digits w ∈ rev_vocab) ∧ id = UNK_ID))
            (tokenize tokenizer sentence)
            (sentence_to_token_ids sentence vocab tokenizer normalize_digits).
Proof.
  eexists _, _. split; [reflexivity|].
  eapply Forall2_impl; [apply sentence_to_token_ids_Forall2|].
  intros w id ->. simpl.
  destruct (dict_of_enumerate _ !! lookup_key normalize_digits w) as [id|] eqn:Hid; simpl.
  - left. apply dict_of_enumerate_Some in Hid as (i & -> & Hi).
    apply py_getitem_lookup, Hi.
  - right. split; [|reflexivity]. intros Hin.
    apply dict_of_enumerate_is_Some in Hin as [? Hin]. congruence.
Qed.

(** X9: the ids of an encoded sentence are never negative and lie below
    the number of lines of the vocabulary file, or are [UNK_ID]: they are
    in the range of the vocabulary as soon as the file has 4 lines. *)
Theorem sentence_to_token_ids_range (content sentence : string)
    (tokenizer : option (string -> list string)) (normalize_digits : bool) :
  ∃ vocab rev_vocab,
    initialize_vocabulary (Some content) = Ok (vocab, rev_vocab) ∧
    Forall (fun id => (0 ≤ id < Z.max 4 (Z.of_nat (length rev_vocab)))%Z)
           (sentence_to_token_ids sentence vocab tokenizer normalize_digits).
Proof.
  eexists _, _. split; [reflexivity|].
  rewrite sentence_to_token_ids_map. apply Forall_forall. intros id Hid.
  apply list_elem_of_In, in_map_iff in Hid as (w & <- & _).
  destruct (dict_of_enumerate _ !! lookup_key normalize_digits w) as [id|] eqn:Hid; simpl.
  - apply dict_of_enumerate_Some in Hid as (i & -> & Hi).
    apply lookup_lt_Some in Hi. lia.
  - unfold UNK_ID. lia.
Qed.

(** ** Writing and reading ids *)

Lemma int_digits_uint (d : Decimal.uint) (acc : Z) :
  int_digits acc true (NilEmpty.string_of_uint d) = Some (uint_value acc d).
Proof.
  revert acc. induction d as [|d IH|d IH|d IH|d IH|d IH|d IH|d IH|d IH|d IH|d IH];
    intros acc; [reflexivity|..]; cbn [NilEmpty.string_of_uint int_digits uint_value];
    apply IH.
Qed.

Lemma uint_value_pos (d : Decimal.uint) (acc : positive) :
  uint_value (Z.pos acc) d = Z.pos (Pos.of_uint_acc d acc).
Proof.
  revert acc. induction d as [|d IH|d IH|d IH|d IH|d IH|d IH|d IH|d IH|d IH|d IH];
    intros acc; [reflexivity|..]; cbn [uint_value Pos.of_uint_acc];
    rewrite <- IH; f_equal; lia.
Qed.

Lemma uint_value_0 (d : Decimal.uint) : uint_value 0 d = Z.of_uint d.
Proof.
  unfold Z.of_uint.
  induction d as [|d IH|d IH|d IH|d IH|d IH|d IH|d IH|d IH|d IH|d IH];
    [reflexivity|exact IH|..]; cbn [uint_value Pos.of_uint Z.of_N];
    rewrite <- uint_value_pos; reflexivity.
Qed.

Lemma py_int_uint (d : Decimal.uint) :
  d ≠ Decimal.Nil → py_int (NilEmpty.string_of_uint d) = Ok (Z.of_uint d).
Proof.
  intros Hd. rewrite <- uint_value_0.
  destruct d as [|d|d|d|d|d|d|d|d|d|d]; [congruence|..];
    unfold py_int; cbn [NilEmpty.string_of_uint];
    cbn [int_digits is_digit]; simpl Ascii.eqb; cbv iota;
    cbn [uint_value]; rewrite int_digits_uint; reflexivity.
Qed.

Lemma py_int_neg_uint (d : Decimal.uint) :
  d ≠ Decimal.Nil →
  py_int (String (Ascii.ascii_of_nat 45) (NilEmpty.string_of_uint d)) = Ok (- Z.of_uint d)%Z.
Proof.
  intros Hd. rewrite <- uint_value_0.
  destruct d as [|d|d|d|d|d|d|d|d|d|d]; [congruence|..];
    unfold py_int; simpl Ascii.eqb; cbv iota; cbn [NilEmpty.string_of_uint];
    cbn [int_digits is_digit]; cbn [uint_value]; rewrite int_digits_uint; reflexivity.
Qed.

(** Reading a written [int] gives it back. *)
Lemma py_int_py_str (n : Z) : py_int (py_str n) = Ok n.
Proof.
  unfold py_str. destruct n as [|p|p]; [reflexivity| |].
  - cbn [Z.to_int NilZero.string_of_int]. unfold NilZero.string_of_uint.
    pose proof (DecimalPos.Unsigned.to_uint_nonnil p) as Hnil.
    pose proof (DecimalPos.Unsigned.of_to p) as Hof.
    destruct (Pos.to_uint p) eqn:E; [congruence|..];
      rewrite py_int_uint by discriminate; unfold Z.of_uint; rewrite Hof; reflexivity.
  - cbn [Z.to_int NilZero.string_of_int]. unfold NilZero.string_of_uint.
    pose proof (DecimalPos.Unsigned.to_uint_nonnil p) as Hnil.
    pose proof (DecimalPos.Unsigned.of_to p) as Hof.
    destruct (Pos.to_uint p) eqn:E; [congruence|..];
      rewrite py_int_neg_uint by discriminate; unfold Z.of_uint; rewrite Hof; reflexivity.
Qed.

Lemma string_of_uint_free (d : Decimal.uint) :
  free_of str_isspace (NilEmpty.string_of_uint d) = true.
Proof.
  induction d as [|d IH|d IH|d IH|d IH|d IH|d IH|d IH|d IH|d IH|d IH];
    [reflexivity|..]; cbn [NilEmpty.string_of_uint free_of]; rewrite IH; reflexivity.
Qed.

(** A written [int] is a token. *)
Lemma py_str_token (n : Z) : is_token str_isspace (py_str n).
Proof.
  unfold py_str. destruct n as [|p|p]; [split; [discriminate|reflexivity]| |].
  - cbn [Z.to_int NilZero.string_of_int]. unfold NilZero.string_of_uint.
    pose proof (DecimalPos.Unsigned.to_uint_nonnil p) as Hnil.
    pose proof (string_of_uint_free (Pos.to_uint p)) as Hfree.
    destruct (Pos.to_uint p) eqn:E; [congruence|..]; (split; [discriminate|exact Hfree]).
  - cbn [Z.to_int NilZero.string_of_int]. unfold NilZero.string_of_uint.
    pose proof (string_of_uint_free (Pos.to_uint p)) as Hfree.
    destruct (Pos.to_uint p) eqn:E;
      (split; [discriminate|cbn [free_of]; try rewrite Hfree; reflexivity]).
Qed.

Lemma parse_ints_py_str (ids : list Z) : parse_ints (map py_str ids) = Ok ids.
Proof.
  induction ids as [|n ids IH]; [reflexivity|]. simpl.
  rewrite py_int_py_str. simpl. rewrite IH. reflexivity.
Qed.

(** The line written for the ids [ids] is read back as [ids]. *)
Lemma line_ids_written (ids : list Z) :
  line_ids (join " " (map py_str ids) +:+ String newline EmptyString) = Ok ids.
Proof.
  unfold line_ids. rewrite split_strip. unfold split.
  rewrite (split_go_join str_isspace eq_refl).
  - simpl. rewrite app_nil_r. apply parse_ints_py_str.
  - apply Forall_forall. intros w Hw.
    apply list_elem_of_In, in_map_iff in Hw as (n & <- & _). apply py_str_token.
  - intros c rest' [= <- _]. reflexivity.
Qed.

Lemma parse_lines_written (idss : list (list Z)) :
  parse_lines (map (fun ids => join " " (map py_str ids) +:+ String newline EmptyString) idss)
  = Ok idss.
Proof.
  induction idss as [|ids idss IH]; [reflexivity|]. simpl.
  rewrite line_ids_written. simpl. rewrite IH. reflexivity.
Qed.

(** X10: the ids file that [data_to_token_ids] writes has one line per
    line of the data file, and reading its lines back as [frequency] does
    gives the ids of the encoded sentences; without a vocabulary file
    [ValueError] is raised. *)
Theorem data_to_token_ids_read_back (data content : string)
    (tokenizer : option (string -> list string)) (normalize_digits : bool) :
  (∃ vocab rev_vocab written,
     initialize_vocabulary (Some content) = Ok (vocab, rev_vocab) ∧
     data_to_token_ids data (Some content) tokenizer normalize_digits = Ok written ∧
     length written = length (readlines data) ∧
     parse_lines written
     = Ok (map (fun line => sentence_to_token_ids line vocab tokenizer normalize_digits)
               (readlines data))) ∧
  data_to_token_ids data None tokenizer normalize_digits = Raise ValueError.
Proof.
  split; [|reflexivity]. eexists _, _, _. split; [reflexivity|].
  split; [reflexivity|]. split; [apply length_map|].
  cbn [fst]. rewrite <- parse_lines_written, map_map. reflexivity.
Qed.

(** X11: [frequency] on the ids file written by [data_to_token_ids] for a
    non-empty data file counts, for every id, its occurrences in the
    encoded sentences, and for the id 2 one more per line of the data
    file. *)
Theorem frequency_of_data_to_token_ids (data content : string)
    (tokenizer : option (string -> list string)) (normalize_digits : bool) :
  readlines data ≠ [] →
  ∃ vocab rev_vocab written freq,
    initialize_vocabulary (Some content) = Ok (vocab, rev_vocab) ∧
    data_to_token_ids data (Some content) tokenizer normalize_digits = Ok written ∧
    frequency written = Ok freq ∧
    ∀ id, freq !! id =
          let idss := map (fun line =>
                             sentence_to_token_ids line vocab tokenizer normalize_digits)
                          (readlines data) in
          if id_count idss id =? 0 then None else Some (id_count idss id).
Proof.
  intros Hne. eexists _, _, _, _. split; [reflexivity|]. split; [reflexivity|].
  cbn [fst].
  set (vocab := dict_of_enumerate _).
  set (idss := map (fun line => sentence_to_token_ids line vocab tokenizer normalize_digits)
                   (readlines data)).
  assert (map (fun line =>
                 join " " (map py_str
                             (sentence_to_token_ids line vocab tokenizer normalize_digits))
                 +:+ String newline EmptyString) (readlines data)
          = map (fun ids => join " " (map py_str ids) +:+ String newline EmptyString) idss)
    as Hwritten by (unfold idss; rewrite map_map; reflexivity).
  rewrite Hwritten.
  destruct (frequency_counts _ idss (parse_lines_written idss)) as (Hfreq & Hlookup & _).
  - unfold idss. destruct (readlines data); [congruence|discriminate].
  - split; [exact Hfreq|exact Hlookup].
Qed.

Lemma frequency_of_data_to_token_ids_witness :
  ∃ vocab rev_vocab written freq,
    initialize_vocabulary (Some (create_vocabulary small_corpus 7 None true))
    = Ok (vocab, rev_vocab) ∧
    data_to_token_ids small_corpus (Some (create_vocabulary small_corpus 7 None true))
                      None true = Ok written ∧
    frequency written = Ok freq ∧
    ∀ id, freq !! id =
          let idss := map (fun line => sentence_to_token_ids line vocab None true)
                          (readlines small_corpus) in
          if id_count idss id =? 0 then None else Some (id_count idss id).
Proof.
  apply (frequency_of_data_to_token_ids small_corpus
           (create_vocabulary small_corpus 7 None true) None true).
  vm_compute. discriminate.
Defined.

Example data_to_token_ids_small :
  data_to_token_ids small_corpus (Some (create_vocabulary small_corpus 7 None true)) None true
  = Ok ["4 5 5" +:+ String newline EmptyString; "6 4 6 3 3" +:+ String newline EmptyString].
Proof. vm_compute. reflexivity. Qed.

(** ** Decoding lines *)

Lemma py_getitem_cases {A : Type} (l : list A) (id : Z) :
  match py_getitem l id with
  | Ok _ => in_vocab_range (length l) id
  | Raise e => e = IndexError ∧ ¬ in_vocab_range (length l) id
  end.
Proof.
  unfold py_getitem, in_vocab_range. cbv zeta.
  destruct (Z.ltb_spec id 0) as [Hneg|Hpos].
  - destruct (Z.ltb_spec (id + Z.of_nat (length l)) 0) as [Hlow|Hlow].
    + split; [reflexivity|lia].
    + destruct (l !! Z.to_nat (id + Z.of_nat (length l))) eqn:Hl; [lia|].
      apply lookup_ge_None in Hl. lia.
  - destruct (Z.ltb_spec id 0) as [?|_]; [lia|].
    destruct (l !! Z.to_nat id) eqn:Hl.
    + apply lookup_lt_Some in Hl. lia.
    + apply lookup_ge_None in Hl. split; [reflexivity|lia].
Qed.

Lemma collect_words_no_table (d : list string) src ah (k i : nat) (idxs : list Z) :
  match collect_words d None src ah k i idxs with
  | Ok _ => Forall (printable_id (length d)) idxs
  | Raise e => e = IndexError ∧ ¬ Forall (printable_id (length d)) idxs
  end.
Proof.
  revert i. induction idxs as [|id idxs IH]; intros i; simpl; [constructor|].
  specialize (IH (S i)).
  destruct (Z.eqb_spec id 2) as [->|Hne2].
  { destruct (collect_words d None src ah k (S i) idxs).
    - constructor; [left; reflexivity|exact IH].
    - destruct IH as [-> IH]. split; [reflexivity|]. intros H. inversion H. auto. }
  destruct (Z.eqb_spec id 3) as [->|Hne3].
  { simpl. destruct (collect_words d None src ah k (S i) idxs); simpl.
    - constructor; [right; left; reflexivity|exact IH].
    - destruct IH as [-> IH]. split; [reflexivity|]. intros H. inversion H. auto. }
  pose proof (py_getitem_cases d id) as Hget.
  destruct (py_getitem d id) as [w|e]; simpl.
  - destruct (collect_words d None src ah k (S i) idxs); simpl.
    + constructor; [right; right; exact Hget|exact IH].
    + destruct IH as [-> IH]. split; [reflexivity|]. intros H. inversion H. auto.
  - destruct Hget as [-> Hget]. split; [reflexivity|]. intros H. inversion H as [|? ? Hid _].
    destruct Hid as [?|[?|?]]; [congruence|congruence|contradiction].
Qed.

Lemma ids_to_tokens_loop_no_table (d : list string) src (k : nat)
    (lines : list (option decoded)) :
  match ids_to_tokens_loop d None src k lines with
  | Ok _ => all_ids (printable_id (length d)) lines
  | Raise e => e = IndexError ∧ ¬ all_ids (printable_id (length d)) lines
  end.
Proof.
  unfold all_ids. revert k. induction lines as [|[line|] lines IH]; intros k; simpl.
  - constructor.
  - unfold write_line.
    pose proof (collect_words_no_table d src (attention_history line) k 0 (word_idxs line))
      as Hline.
    destruct (collect_words d None src (attention_history line) k 0 (word_idxs line)); simpl.
    + specialize (IH (S k)). destruct (ids_to_tokens_loop d None src (S k) lines); simpl.
      * constructor; assumption.
      * destruct IH as [-> IH]. split; [reflexivity|]. intros H. inversion H. auto.
    + destruct Hline as [-> Hline]. split; [reflexivity|]. intros H. inversion H. auto.
  - specialize (IH k). destruct (ids_to_tokens_loop d None src k lines); simpl.
    + constructor; [exact I|exact IH].
    + destruct IH as [-> IH]. split; [reflexivity|]. intros H. inversion H. auto.
Qed.

(** X12: without a translation table [ids_to_tokens] succeeds exactly when
    every id of every non-null line is 2, 3 or an index of the vocabulary
    list, counted from the front or (when negative) from the end; in every
    other case it raises [IndexError]. *)
Theorem ids_to_tokens_no_table (lines : list (option decoded)) (to_vocab : list string)
    (test_source_orig_tok : option (list (list string))) :
  match ids_to_tokens lines to_vocab None test_source_orig_tok with
  | Ok _ => all_ids (printable_id (length to_vocab)) lines
  | Raise e => e = IndexError ∧ ¬ all_ids (printable_id (length to_vocab)) lines
  end.
Proof.
  unfold ids_to_tokens.
  pose proof (ids_to_tokens_loop_no_table (map (strip str_isspace) to_vocab)
                test_source_orig_tok 0 lines) as H.
  rewrite length_map in H. exact H.
Qed.

(** X13: when [ids_to_tokens] succeeds it has written one string per input
    line, in order, each ending with a newline, and for a null line the
    newline alone. *)
Theorem ids_to_tokens_written (lines : list (option decoded)) (to_vocab : list string)
    (ttable : option (gmap string (list string)))
    (test_source_orig_tok : option (list (list string))) (written : list string) :
  ids_to_tokens lines to_vocab ttable test_source_orig_tok = Ok written →
  length written = length lines ∧
  Forall ends_with_newline written ∧
  (∀ i, lines !! i = Some None → written !! i = Some (String newline EmptyString)).
Proof. apply ids_to_tokens_loop_written. Qed.

Lemma ids_to_tokens_written_witness :
  length [String newline EmptyString; "y0" +:+ String newline EmptyString] = 2 ∧
  Forall ends_with_newline
         [String newline EmptyString; "y0" +:+ String newline EmptyString] ∧
  (∀ i, [None; Some unk_line] !! i = Some None →
        [String newline EmptyString; "y0" +:+ String newline EmptyString] !! i
        = Some (String newline EmptyString)).
Proof.
  apply (ids_to_tokens_written [None; Some unk_line] abc_vocab (Some ∅)
           (Some [["x0"; "y0"; "z0"]; ["x1"; "y1"; "z1"]])).
  vm_compute. reflexivity.
Defined.

Lemma collect_words_lookup_words (d : list string) ttable src ah (k i : nat)
    (idxs : list Z) :
  Forall (fun id => id ≠ 2%Z ∧ id ≠ 3%Z) idxs →
  collect_words d ttable src ah k i idxs = lookup_words d idxs.
Proof.
  intros Hids. revert i. induction Hids as [|id idxs [H2 H3] _ IH]; intros i; simpl.
  - reflexivity.
  - destruct (Z.eqb_spec id 2) as [?|_]; [contradiction|].
    destruct (Z.eqb_spec id 3) as [?|_]; [contradiction|].
    rewrite IH. reflexivity.
Qed.

Lemma collect_words_no_unk (d : list string) ttable src ah (k i k' i' : nat)
    (idxs : list Z) :
  Forall (fun id => id ≠ 3%Z) idxs →
  collect_words d ttable src ah k i idxs = collect_words d None None [] k' i' idxs.
Proof.
  intros Hids. revert i i'.
  induction Hids as [|id idxs H3 _ IH]; intros i i'; simpl; [reflexivity|].
  destruct (id =? 2)%Z; [apply IH|].
  destruct (Z.eqb_spec id 3) as [?|_]; [contradiction|].
  rewrite (IH (S i) (S i')). reflexivity.
Qed.

Lemma ids_to_tokens_loop_no_unk (d : list string) ttable src (k k' : nat)
    (lines : list (option decoded)) :
  all_ids (fun id => id ≠ 3%Z) lines →
  ids_to_tokens_loop d ttable src k lines = ids_to_tokens_loop d None None k' lines.
Proof.
  unfold all_ids. intros Hall. revert k k'.
  induction Hall as [|[line|] lines Hline _ IH]; intros k k'; simpl; [reflexivity| |].
  - unfold write_line.
    rewrite (collect_words_no_unk d ttable src (attention_history line) k 0 k' 0 _ Hline).
    rewrite (collect_words_no_unk d None None (attention_history line) k' 0 k' 0 _ Hline).
    rewrite (IH (S k) (S k')). reflexivity.
  - rewrite (IH k k'). reflexivity.
Qed.

(** X14: the translation table, the source tokens and the attention
    weights matter at unknown-word positions only: for lines without the
    id 3, [ids_to_tokens] writes what it writes without a table and
    without source tokens. *)
Theorem ids_to_tokens_without_unk (lines : list (option decoded)) (to_vocab : list string)
    (ttable : option (gmap string (list string)))
    (test_source_orig_tok : option (list (list string))) :
  all_ids (fun id => id ≠ 3%Z) lines →
  ids_to_tokens lines to_vocab ttable test_source_orig_tok
  = ids_to_tokens lines to_vocab None None.
Proof. intros Hall. unfold ids_to_tokens. apply ids_to_tokens_loop_no_unk, Hall. Qed.

Lemma ids_to_tokens_without_unk_witness :
  ids_to_tokens [Some eos_inside; None] abc_vocab (Some sample_ttable) (Some sample_source)
  = ids_to_tokens [Some eos_inside; None] abc_vocab None None.
Proof.
  apply (ids_to_tokens_without_unk [Some eos_inside; None] abc_vocab
           (Some sample_ttable) (Some sample_source)).
  repeat constructor; discriminate.
Defined.

Lemma lookup_words_encoded (rev_vocab : list string) (normalize_digits : bool)
    (words : list string) :
  Forall (fun w => lookup_key normalize_digits w ∈ rev_vocab) words →
  lookup_words rev_vocab
    (map (fun w => default UNK_ID
                     (dict_of_enumerate rev_vocab !! lookup_key normalize_digits w)) words)
  = Ok (map (lookup_key normalize_digits) words).
Proof.
  induction 1 as [|w words Hw _ IH]; simpl; [reflexivity|].
  apply dict_of_enumerate_is_Some in Hw as [id Hid]. rewrite Hid. simpl.
  apply dict_of_enumerate_Some in Hid as (i & -> & Hi).
  rewrite (py_getitem_lookup _ _ _ Hi). simpl. rewrite IH. reflexivity.
Qed.

(** X15: decoding undoes encoding.  With the mapping and the list loaded
    from a vocabulary file by [initialize_vocabulary], when [ids_to_tokens]
    reads the same entries from the lines of the file and the words of a
    sentence are all in the vocabulary, none of them at the ids 2 or 3,
    [ids_to_tokens] writes, for the ids the sentence is encoded to, the
    words of the sentence joined by single spaces. *)
Theorem decode_encoded_sentence (content sentence : string) (to_vocab : list string)
    (tokenizer : option (string -> list string)) (normalize_digits : bool)
    (vocab : gmap string Z) (rev_vocab : list string)
    (ttable : option (gmap string (list string)))
    (test_source_orig_tok : option (list (list string)))
    (sc : Q) (attention : list (list Q)) :
  initialize_vocabulary (Some content) = Ok (vocab, rev_vocab) →
  map (strip str_isspace) to_vocab = rev_vocab →
  Forall (fun w => ∃ id, vocab !! lookup_key normalize_digits w = Some id ∧
                         id ≠ 2%Z ∧ id ≠ 3%Z)
         (tokenize tokenizer sentence) →
  ids_to_tokens
    [Some {| word_idxs := sentence_to_token_ids sentence vocab tokenizer normalize_digits;
             score := sc; attention_history := attention |}]
    to_vocab ttable test_source_orig_tok
  = Ok [join " " (map (lookup_key normalize_digits) (tokenize tokenizer sentence))
        +:+ String newline EmptyString].
Proof.
  intros [= <- <-] Hsame Hwords. unfold ids_to_tokens. rewrite Hsame.
  set (rev_vocab := map (strip bytes_isspace) (readlines content)) in *.
  cbn [ids_to_tokens_loop]. unfold write_line. cbn [word_idxs attention_history].
  rewrite sentence_to_token_ids_map.
  rewrite collect_words_lookup_words.
  - rewrite lookup_words_encoded; [reflexivity|].
    eapply Forall_impl; [exact Hwords|]. intros w (id & Hid & _).
    apply dict_of_enumerate_is_Some. eauto.
  - apply Forall_forall. intros id Hid.
    apply list_elem_of_In, in_map_iff in Hid as (w & <- & Hw).
    rewrite Forall_forall in Hwords. apply list_elem_of_In in Hw.
    destruct (Hwords w Hw) as (id & -> & H2 & H3). simpl. auto.
Qed.

Lemma decode_encoded_sentence_witness :
  ids_to_tokens
    [Some {| word_idxs :=
               sentence_to_token_ids "c  b 12"
                 (dict_of_enumerate ["_PAD"; "_GO"; "_EOS"; "_UNK"; "b"; "a"; "c"; "00"])
                 None true;
             score := 0; attention_history := [] |}]
    (readlines (create_vocabulary small_corpus 20 None true)) None None
  = Ok [join " " (map (lookup_key true) (tokenize None "c  b 12"))
        +:+ String newline EmptyString].
Proof.
  apply (decode_encoded_sentence (create_vocabulary small_corpus 20 None true) "c  b 12"
           (readlines (create_vocabulary small_corpus 20 None true))
           None true _ ["_PAD"; "_GO"; "_EOS"; "_UNK"; "b"; "a"; "c"; "00"] None None 0%Q []).
  - vm_compute. reflexivity.
  - vm_compute. reflexivity.
  - assert (tokenize None "c  b 12" = ["c"; "b"; "12"]) as -> by (vm_compute; reflexivity).
    repeat constructor.
    + exists 6%Z. split; [vm_compute; reflexivity|]. split; discriminate.
    + exists 4%Z. split; [vm_compute; reflexivity|]. split; discriminate.
    + exists 7%Z. split; [vm_compute; reflexivity|]. split; discriminate.
Defined.

(** An entry that ends in the separator of code 28 is read by
    [initialize_vocabulary] as it is and by [ids_to_tokens] without the
    separator. *)
Example vocabulary_entry_stripped_as_text :
  let entry := "q" +:+ String (Ascii.ascii_of_nat 28) (String newline EmptyString) in
  strip bytes_isspace entry = "q" +:+ String (Ascii.ascii_of_nat 28) EmptyString ∧
  strip str_isspace entry = "q".
Proof. vm_compute. auto. Qed.

Lemma py_slice_to_drop_last {A : Type} (l : list A) (x : A) :
  py_slice_to (l ++ [x]) (-1) = l.
Proof.
  unfold py_slice_to. change (-1 <? 0)%Z with true. cbv iota.
  rewrite length_app. cbn [length].
  replace (length l + 1 - Z.to_nat (- -1)) with (length l) by lia.
  apply take_app_length.
Qed.

(** X16: [id_to_tokens] never looks up the last id of its line, and on a
    line without the ids 2 and 3 before its last id it gives the sentence
    that [ids_to_tokens] writes for the line ending in the end symbol, with
    the same error when an id is out of range. *)
Theorem id_to_tokens_agrees (body : list Z) (last : Z) (d : list string)
    (ttable : option (gmap string (list string)))
    (test_source_orig_tok : option (list (list string)))
    (sent_idx : nat) (sc : Q) (attention : list (list Q)) :
  Forall (fun id => id ≠ 2%Z ∧ id ≠ 3%Z) body →
  write_line d ttable test_source_orig_tok sent_idx
    {| word_idxs := body ++ [EOS_ID]; score := sc; attention_history := attention |}
  = (sent ← id_to_tokens (body ++ [last]) d; Ok (sent +:+ String newline EmptyString)).
Proof.
  intros Hbody. unfold write_line, id_to_tokens. cbn [word_idxs attention_history].
  rewrite py_slice_to_drop_last, collect_words_app.
  rewrite (collect_words_lookup_words d ttable _ _ _ 0 body Hbody).
  destruct (lookup_words d body) as [ws|e]; simpl; [|reflexivity].
  rewrite app_nil_r. reflexivity.
Qed.

Lemma id_to_tokens_agrees_witness :
  write_line (map (strip str_isspace) abc_vocab) None None 0
    {| word_idxs := [5; 7]%Z ++ [EOS_ID]; score := 0; attention_history := [] |}
  = (sent ← id_to_tokens ([5; 7]%Z ++ [99%Z]) (map (strip str_isspace) abc_vocab);
     Ok (sent +:+ String newline EmptyString)).
Proof.
  apply (id_to_tokens_agrees [5; 7]%Z 99%Z (map (strip str_isspace) abc_vocab)
           None None 0 0%Q []).
  repeat constructor; discriminate.
Defined.

Example id_to_tokens_edges :
  id_to_tokens [] ["x"] = Ok EmptyString ∧
  id_to_tokens [99%Z] ["x"] = Ok EmptyString ∧
  id_to_tokens [0; (-1); 5]%Z ["x"; "y"] = Ok "x y" ∧
  id_to_tokens [2; 0]%Z ["x"; "y"] = Raise IndexError.
Proof. vm_compute. auto. Qed.

(** ** Reversed source tokens *)

Lemma load_data_orig_reverse_lookup (lines : list string) (k p q : nat) (line w : string) :
  lines !! k = Some line →
  split str_isspace line !! q = Some w →
  p + q + 1 = length (split str_isspace line) →
  ∃ source, load_data_orig_reverse lines !! k = Some source ∧ source !! p = Some w.
Proof.
  intros Hline Hq Hpq. unfold load_data_orig_reverse.
  rewrite list_lookup_fmap, Hline. simpl. eexists. split; [reflexivity|].
  rewrite rev_alt. change (rev_append ?l []) with (reverse l).
  rewrite reverse_lookup by lia.
  replace (length (split str_isspace line) - S p) with q by lia. exact Hq.
Qed.

(** X17: with the source tokens loaded by [load_data_orig_reverse], the
    position [p] of the greatest attention weight stands for the word that
    is [p] words before the last word of the source line: that word is
    translated by the table, or copied when the table has no entry for
    it. *)
Theorem unk_word_from_reversed_source (lines : list string)
    (table : gmap string (list string)) (attention_history : list (list Q))
    (sent_idx i p q : nat) (row : list Q) (line w : string) :
  lines !! sent_idx = Some line →
  attention_history !! i = Some row →
  first_argmax row p →
  split str_isspace line !! q = Some w →
  p + q + 1 = length (split str_isspace line) →
  unk_target_word (Some table) (Some (load_data_orig_reverse lines))
                  attention_history sent_idx i
  = match table !! w with
    | Some candidates => py_index candidates 0
    | None => Ok w
    end.
Proof.
  intros Hline Hrow Hp Hq Hpq.
  destruct (load_data_orig_reverse_lookup lines sent_idx p q line w Hline Hq Hpq)
    as (source & Hsource & Hw).
  unfold unk_target_word, py_index_opt, py_index.
  rewrite Hrow. simpl. rewrite (np_argmax_first _ _ Hp). simpl.
  rewrite Hsource. simpl. rewrite Hw. reflexivity.
Qed.

Lemma unk_word_from_reversed_source_witness :
  unk_target_word (Some sample_ttable)
                  (Some (load_data_orig_reverse ["x1 y x3 x4" +:+ String newline EmptyString]))
                  [[1 # 10; 1 # 10; 8 # 10]%Q] 0 0
  = match sample_ttable !! "y" with
    | Some candidates => py_index candidates 0
    | None => Ok "y"
    end.
Proof.
  apply (unk_word_from_reversed_source ["x1 y x3 x4" +:+ String newline EmptyString]
           sample_ttable [[1 # 10; 1 # 10; 8 # 10]%Q] 0 0 2 1
           [1 # 10; 1 # 10; 8 # 10]%Q ("x1 y x3 x4" +:+ String newline EmptyString) "y").
  - reflexivity.
  - reflexivity.
  - exists (8 # 10)%Q. split; [reflexivity|]. split.
    + intros [|[|[|j]]] x Hx; simpl in Hx; try discriminate;
        injection Hx as <-; unfold Qle; simpl; lia.
    + intros [|[|j]] x Hj Hx; [| |lia]; simpl in Hx;
        injection Hx as <-; unfold Qlt; simpl; lia.
  - vm_compute. reflexivity.
  - vm_compute. reflexivity.
Defined.

(** ** Vocabulary files read as text *)

Lemma load_index2word_state (lines : list string) :
  ∃ d, foldl (fun '(d, i) line => (<[i := strip str_isspace line]> d, i + 1))
             ((∅ : gmap nat string), 0) lines = (d, length lines) ∧
       (∀ i, d !! i = strip str_isspace <$> lines !! i) ∧
       size d = length lines.
Proof.
  induction lines as [|line lines (d & Hd & Hlookup & Hsize)] using rev_ind.
  - exists ∅. split; [reflexivity|]. split; [|apply map_size_empty].
    intros i. rewrite lookup_empty. reflexivity.
  - rewrite foldl_app, Hd. simpl. eexists. rewrite length_app. simpl.
    split; [reflexivity|]. split.
    + intros i. destruct (decide (length lines = i)) as [<-|Hne].
      * rewrite lookup_insert_eq, lookup_app_r by lia. rewrite Nat.sub_diag. reflexivity.
      * rewrite lookup_insert_ne by assumption. rewrite Hlookup.
        destruct (decide (i < length lines)) as [Hlt|Hge].
        -- rewrite lookup_app_l by assumption. reflexivity.
        -- rewrite !lookup_ge_None_2; [reflexivity|rewrite length_app; simpl; lia|lia].
    + rewrite map_size_insert_None; [lia|].
      rewrite Hlookup, lookup_ge_None_2 by lia. reflexivity.
Qed.

Lemma load_word2index_state (lines : list string) :
  ∃ d, foldl (fun '(d, i) line => (<[strip str_isspace line := i]> d, i + 1))
             ((∅ : gmap string nat), 0) lines = (d, length lines) ∧
       ∀ w i, d !! w = Some i ↔
              (strip str_isspace <$> lines) !! i = Some w ∧
              ∀ j, i < j → (strip str_isspace <$> lines) !! j ≠ Some w.
Proof.
  induction lines as [|line lines (d & Hd & Hlookup)] using rev_ind.
  - exists ∅. split; [reflexivity|]. intros w i. rewrite lookup_empty. split; [discriminate|].
    intros [H _]. discriminate H.
  - rewrite foldl_app, Hd. simpl. eexists. rewrite length_app. simpl.
    split; [reflexivity|]. intros w i. rewrite fmap_app. simpl.
    set (ws := strip str_isspace <$> lines) in *.
    assert (length ws = length lines) as Hlen by apply length_fmap.
    destruct (decide (strip str_isspace line = w)) as [->|Hne].
    + rewrite lookup_insert_eq. split.
      * intros [= <-]. split.
        -- rewrite lookup_app_r by lia. rewrite Hlen, Nat.sub_diag. reflexivity.
        -- intros j Hj. rewrite lookup_ge_None_2; [discriminate|].
           rewrite length_app. simpl. lia.
      * intros [Hi Hlast]. f_equal.
        pose proof (lookup_lt_Some _ _ _ Hi) as Hlt. rewrite length_app in Hlt. simpl in Hlt.
        destruct (decide (length lines = i)) as [Heq|Hi']; [exact Heq|].
        exfalso. apply (Hlast (length lines)); [lia|].
        rewrite lookup_app_r by lia. rewrite Hlen, Nat.sub_diag. reflexivity.
    + rewrite lookup_insert_ne by assumption. rewrite Hlookup. split.
      * intros [Hi Hlast]. pose proof (lookup_lt_Some _ _ _ Hi) as Hlt. split.
        -- rewrite lookup_app_l by assumption. exact Hi.
        -- intros j Hj Hc. apply lookup_app_Some in Hc as [Hc|[_ Hc]].
           ++ exact (Hlast j Hj Hc).
           ++ apply list_lookup_singleton_Some in Hc as [_ Hc]. congruence.
      * intros [Hi Hlast]. apply lookup_app_Some in Hi as [Hi|[_ Hi]].
        -- split; [exact Hi|]. intros j Hj Hc. apply (Hlast j Hj).
           rewrite lookup_app_l; [exact Hc|]. eapply lookup_lt_Some. exact Hc.
        -- apply list_lookup_singleton_Some in Hi as [_ Hi]. congruence.
Qed.

Lemma get_real_vocab_size_length (lines : list string) :
  get_real_vocab_size lines = length lines.
Proof.
  unfold get_real_vocab_size.
  induction lines as [|line lines IH] using rev_ind; [reflexivity|].
  rewrite foldl_app, length_app. simpl. rewrite IH. reflexivity.
Qed.

(** X18: for the same vocabulary file, [load_index2word] maps every line
    number to the stripped line and has [get_real_vocab_size] entries;
    [load_word2index] maps a word to the number of the last line that
    holds it, so that the index of a word leads back to the word, and the
    word of a line number leads back to the number unless a later line
    holds the same word. *)
Theorem load_index2word_word2index (vocab_file : list string) :
  (∀ i, load_index2word vocab_file !! i = strip str_isspace <$> vocab_file !! i) ∧
  size (load_index2word vocab_file) = get_real_vocab_size vocab_file ∧
  (∀ w i, load_word2index vocab_file !! w = Some i →
          load_index2word vocab_file !! i = Some w) ∧
  (∀ w i, load_index2word vocab_file !! i = Some w →
          (∀ j, i < j → load_index2word vocab_file !! j ≠ Some w) →
          load_word2index vocab_file !! w = Some i).
Proof.
  unfold load_index2word, load_word2index.
  destruct (load_index2word_state vocab_file) as (d & -> & Hd & Hsize).
  destruct (load_word2index_state vocab_file) as (d' & -> & Hd').
  cbn [fst]. split; [exact Hd|]. split.
  { rewrite get_real_vocab_size_length. exact Hsize. }
  split.
  - intros w i Hw. apply Hd' in Hw as [Hw _]. rewrite Hd, <- list_lookup_fmap. exact Hw.
  - intros w i Hi Hlast. apply Hd'. split.
    + rewrite list_lookup_fmap, <- Hd. exact Hi.
    + intros j Hj. rewrite list_lookup_fmap, <- Hd. apply Hlast, Hj.
Qed.

(** ** Outcomes of the frequency analyzer *)

Lemma int_digits_None_or (x : string) : py_int x = Raise ValueError ∨ ∃ n, py_int x = Ok n.
Proof. unfold py_int. destruct (match x with EmptyString => _ | _ => _ end); eauto. Qed.

Lemma parse_ints_error (tokens : list string) (e : exn) :
  parse_ints tokens = Raise e → e = ValueError.
Proof.
  induction tokens as [|x tokens IH]; simpl; [discriminate|].
  destruct (int_digits_None_or x) as [->|[n ->]]; simpl; [congruence|].
  destruct (parse_ints tokens) as [ns|e']; simpl; [discriminate|].
  intros [= <-]. apply IH. reflexivity.
Qed.

Lemma parse_lines_error (lines : list string) (e : exn) :
  parse_lines lines = Raise e → e = ValueError.
Proof.
  induction lines as [|line lines IH]; simpl; [discriminate|].
  destruct (line_ids line) as [ids|e'] eqn:Hline; simpl.
  - destruct (parse_lines lines) as [idss|e'']; simpl; [discriminate|].
    intros [= <-]. apply IH. reflexivity.
  - intros [= <-]. eapply parse_ints_error. exact Hline.
Qed.

Lemma frequency_loop_unparsed (lines : list string) (d : gmap Z nat) (e : exn) :
  parse_lines lines = Raise e → frequency_loop d lines = Raise e.
Proof.
  revert d. induction lines as [|line lines IH]; intros d; simpl; [discriminate|].
  destruct (line_ids line) as [ids|e']; simpl; [|congruence].
  destruct (parse_lines lines) as [idss|e'']; simpl; [discriminate|].
  intros [= <-]. apply IH. reflexivity.
Qed.

Lemma insert_asc_sorted (x : Z) (l : list Z) :
  StronglySorted Z.lt l → x ∉ l → StronglySorted Z.lt (insert_asc x l).
Proof.
  intros Hs. induction Hs as [|y l Hs IH Hy]; intros Hx; simpl.
  - constructor; constructor.
  - destruct (Z.ltb_spec y x) as [Hlt|Hge].
    + constructor.
      * apply IH. intros H. apply Hx. right. exact H.
      * rewrite insert_asc_perm. constructor; [exact Hlt|exact Hy].
    + assert (x < y)%Z as Hxy.
      { destruct (Z.eq_dec x y) as [->|Hne]; [exfalso; apply Hx; left|lia]. }
      constructor; [constructor; assumption|]. constructor; [exact Hxy|].
      eapply Forall_impl; [exact Hy|]. intros z Hz. simpl in Hz. lia.
Qed.

Lemma sorted_keys_sorted (freq : gmap Z nat) : StronglySorted Z.lt (sorted_keys freq).
Proof.
  unfold sorted_keys.
  pose proof (NoDup_fst_map_to_list freq) as Hnd.
  change ((map_to_list freq).*1) with (map fst (map_to_list freq)) in Hnd.
  induction Hnd as [|x l Hx Hnd IH]; simpl; [constructor|].
  apply insert_asc_sorted; [exact IH|].
  assert (∀ k : list Z, foldr insert_asc [] k ≡ₚ k) as Hperm.
  { induction k as [|y k IHk]; simpl; [reflexivity|]. rewrite insert_asc_perm, IHk. reflexivity. }
  rewrite Hperm. exact Hx.
Qed.

Lemma weight_lines_fst (freq : gmap Z nat) (s : nat) (indexs : list Z)
    (table : list (Z * Q)) :
  weight_lines freq s indexs = Ok table → map fst table = indexs.
Proof.
  revert table. induction indexs as [|i indexs IH]; intros table; simpl.
  - intros [= <-]. reflexivity.
  - destruct (weight_of s (default 0 (freq !! i))) as [w|e]; simpl; [|discriminate].
    destruct (weight_lines freq s indexs) as [rest|e]; simpl; [|discriminate].
    intros [= <-]. simpl. f_equal. apply IH. reflexivity.
Qed.

Lemma frequency_has_eos (train_file : list string) (freq : gmap Z nat) :
  frequency train_file = Ok freq → is_Some (freq !! 2%Z).
Proof.
  unfold frequency. intros Hfreq.
  destruct (parse_lines train_file) as [idss|e] eqn:Hparse.
  - rewrite (frequency_loop_parsed _ _ _ Hparse) in Hfreq. injection Hfreq as <-.
    apply count_ids_is_Some. left. rewrite lookup_insert_eq. eauto.
  - rewrite (frequency_loop_unparsed _ _ _ Hparse) in Hfreq. discriminate.
Qed.

(** X19: the weight file that [output_weight] writes lists the ids in
    strictly ascending order, each once, and always holds the id 2. *)
Theorem output_weight_sorted (train_file : list string) (table : list (Z * Q)) :
  output_weight train_file = Ok table →
  StronglySorted Z.lt (map fst table) ∧ 2%Z ∈ map fst table.
Proof.
  unfold output_weight. intros Hout.
  destruct (frequency train_file) as [freq|e] eqn:Hfreq; simpl in Hout; [|discriminate].
  apply weight_lines_fst in Hout. rewrite Hout. split.
  - apply sorted_keys_sorted.
  - apply sorted_keys_elem. eapply frequency_has_eos. exact Hfreq.
Qed.

Lemma output_weight_sorted_witness :
  StronglySorted Z.lt (map fst [(2%Z, 4 # 1); (3%Z, 4 # 2); (5%Z, 4 # 1)]%Q) ∧
  2%Z ∈ map fst [(2%Z, 4 # 1); (3%Z, 4 # 2); (5%Z, 4 # 1)]%Q.
Proof.
  apply (output_weight_sorted one_line_ids_file). vm_compute. reflexivity.
Defined.

(** X20: the outcomes of [output_weight]: [ValueError] when a token of
    the ids file is not an integer, [ZeroDivisionError] when the file has
    no line, and a weight table in every other case. *)
Theorem output_weight_outcomes (train_file : list string) :
  match parse_lines train_file with
  | Raise e => e = ValueError ∧ output_weight train_file = Raise ValueError
  | Ok idss =>
      match train_file with
      | [] => output_weight train_file = Raise ZeroDivisionError
      | _ :: _ => ∃ table, output_weight train_file = Ok table
      end
  end.
Proof.
  destruct (parse_lines train_file) as [idss|e] eqn:Hparse.
  - destruct train_file as [|line lines] eqn:Hfile; [reflexivity|]. rewrite <- Hfile in *.
    assert (train_file ≠ []) as Hne by (rewrite Hfile; discriminate).
    destruct (frequency_counts train_file idss Hparse Hne) as (Hfreq & Hlookup & Htotal).
    set (freq := count_ids (<[2%Z := 0]> ∅) idss) in *.
    assert (∀ id, id ∈ sorted_keys freq → 0 < get0 freq id) as Hpos.
    { intros id Hid. apply sorted_keys_elem in Hid as [c Hc]. unfold get0.
      rewrite Hc. rewrite Hlookup in Hc.
      destruct (Nat.eqb_spec (id_count idss id) 0); [discriminate|].
      injection Hc as <-. simpl. lia. }
    eexists. unfold output_weight. rewrite Hfreq. simpl.
    apply (weight_lines_positive _ _ _ Hpos).
  - split; [eapply parse_lines_error; exact Hparse|].
    pose proof (parse_lines_error _ _ Hparse) as ->.
    unfold output_weight, frequency. rewrite (frequency_loop_unparsed _ _ _ Hparse). reflexivity.
Qed.

(** ** The reserved ids and the corpus words in the loaded vocabulary *)

Lemma create_vocab_list_start data max_vocabulary_size tokenizer normalize_digits (i : nat) :
  (4 ≤ max_vocabulary_size)%Z → i < 4 →
  create_vocab_list data max_vocabulary_size tokenizer normalize_digits !! i
  = _START_VOCAB !! i.
Proof.
  intros Hmax Hi. rewrite create_vocab_list_cut.
  assert (full_vocab_list tokenizer normalize_digits data !! i = _START_VOCAB !! i) as Hfull.
  { unfold full_vocab_list. apply lookup_app_l. simpl. lia. }
  destruct (_ <? _)%Z; [|exact Hfull].
  unfold py_slice_to.
  replace (max_vocabulary_size <? 0)%Z with false by (symmetry; apply Z.ltb_ge; lia).
  rewrite lookup_take_lt by lia. exact Hfull.
Qed.

(** X25: for a size limit of at least 4, a tokenizer whose tokens hold no
    whitespace and a corpus without the start symbols among its words, the
    loaded vocabulary maps [_PAD], [_GO], [_EOS] and [_UNK] to [PAD_ID],
    [GO_ID], [EOS_ID] and [UNK_ID]. *)
Theorem reserved_ids_loaded (data : string) (max_vocabulary_size : Z)
    (tokenizer : option (string -> list string)) (normalize_digits : bool) :
  (4 ≤ max_vocabulary_size)%Z →
  (∀ line w, w ∈ tokenize tokenizer line → no_space w = true) →
  (∀ w, w ∈ corpus_words tokenizer normalize_digits data → w ∉ _START_VOCAB) →
  ∃ vocab rev_vocab,
    initialize_vocabulary
      (Some (create_vocabulary data max_vocabulary_size tokenizer normalize_digits))
    = Ok (vocab, rev_vocab) ∧
    vocab !! _PAD = Some PAD_ID ∧ vocab !! _GO = Some GO_ID ∧
    vocab !! _EOS = Some EOS_ID ∧ vocab !! _UNK = Some UNK_ID.
Proof.
  intros Hmax Hclean Hfresh. eexists _, _.
  split; [apply create_vocab_list_loaded, Hclean|].
  pose proof (create_vocab_list_NoDup data max_vocabulary_size tokenizer normalize_digits
                Hfresh) as Hnd.
  repeat split.
  - apply (dict_of_enumerate_NoDup _ 0 _ Hnd). rewrite create_vocab_list_start by lia.
    reflexivity.
  - apply (dict_of_enumerate_NoDup _ 1 _ Hnd). rewrite create_vocab_list_start by lia.
    reflexivity.
  - apply (dict_of_enumerate_NoDup _ 2 _ Hnd). rewrite create_vocab_list_start by lia.
    reflexivity.
  - apply (dict_of_enumerate_NoDup _ 3 _ Hnd). rewrite create_vocab_list_start by lia.
    reflexivity.
Qed.

Lemma small_corpus_fresh (w : string) :
  w ∈ corpus_words None true small_corpus → w ∉ _START_VOCAB.
Proof.
  intros Hw Hstart.
  assert (corpus_words None true small_corpus
          = ["b"; "a"; "a"; "c"; "b"; "c"; "00"; "00"]) as Hws by (vm_compute; reflexivity).
  rewrite Hws in Hw.
  repeat (apply elem_of_cons in Hw as [->|Hw]; [absurd_member Hstart|]).
  inversion Hw.
Defined.

Lemma reserved_ids_loaded_witness :
  ∃ vocab rev_vocab,
    initialize_vocabulary (Some (create_vocabulary small_corpus 7 None true))
    = Ok (vocab, rev_vocab) ∧
    vocab !! _PAD = Some PAD_ID ∧ vocab !! _GO = Some GO_ID ∧
    vocab !! _EOS = Some EOS_ID ∧ vocab !! _UNK = Some UNK_ID.
Proof.
  apply (reserved_ids_loaded small_corpus 7 None true).
  - lia.
  - intros line w. apply basic_tokenizer_no_space.
  - exact small_corpus_fresh.
Defined.

Lemma line_words_corpus tokenizer normalize_digits (data line w : string) :
  line ∈ readlines data → w ∈ tokenize tokenizer line →
  lookup_key normalize_digits w ∈ corpus_words tokenizer normalize_digits data.
Proof.
  intros Hline Hw. unfold corpus_words.
  apply list_elem_of_In, in_concat. exists (line_words tokenizer normalize_digits line).
  split.
  - apply in_map, list_elem_of_In, Hline.
  - unfold line_words. apply in_map_iff. exists w. split; [|apply list_elem_of_In, Hw].
    unfold lookup_key. reflexivity.
Qed.

(** X26: when the size limit keeps every word (at least 4 plus the number
    of distinct words), the tokens hold no whitespace and no corpus word is
    a start symbol, no word of a corpus line is encoded as unknown: every
    id of the line is at least 4 and indexes, in the loaded list, the word
    it encodes. *)
Theorem corpus_line_fully_encoded (data line : string) (max_vocabulary_size : Z)
    (tokenizer : option (string -> list string)) (normalize_digits : bool) :
  (Z.of_nat (4 + distinct (corpus_words tokenizer normalize_digits data))
   ≤ max_vocabulary_size)%Z →
  (∀ line w, w ∈ tokenize tokenizer line → no_space w = true) →
  (∀ w, w ∈ corpus_words tokenizer normalize_digits data → w ∉ _START_VOCAB) →
  line ∈ readlines data →
  ∃ vocab rev_vocab,
    initialize_vocabulary
      (Some (create_vocabulary data max_vocabulary_size tokenizer normalize_digits))
    = Ok (vocab, rev_vocab) ∧
    Forall2 (fun w id => (4 ≤ id)%Z ∧
                         rev_vocab !! Z.to_nat id = Some (lookup_key normalize_digits w))
            (tokenize tokenizer line)
            (sentence_to_token_ids line vocab tokenizer normalize_digits).
Proof.
  intros Hmax Hclean Hfresh Hline. eexists _, _.
  split; [apply create_vocab_list_loaded, Hclean|].
  pose proof (create_vocab_list_NoDup data max_vocabulary_size tokenizer normalize_digits
                Hfresh) as Hnd.
  assert (create_vocab_list data max_vocabulary_size tokenizer normalize_digits
          = full_vocab_list tokenizer normalize_digits data) as Hfull.
  { rewrite create_vocab_list_cut.
    pose proof (full_vocab_list_length tokenizer normalize_digits data) as Hlen.
    replace (_ <? _)%Z with false by (symmetry; apply Z.ltb_ge; lia). reflexivity. }
  rewrite Hfull in *.
  pose proof (sentence_to_token_ids_Forall2 line
                (dict_of_enumerate (full_vocab_list tokenizer normalize_digits data))
                tokenizer normalize_digits) as Hids.
  apply Forall2_same_length_lookup. split; [eapply Forall2_length; exact Hids|].
  intros i w id Hw Hid.
  rewrite Forall2_lookup in Hids. specialize (Hids i). rewrite Hw, Hid in Hids.
  inversion Hids as [? ? Heq|]; subst.
  assert (lookup_key normalize_digits w ∈ corpus_words tokenizer normalize_digits data)
    as Hin.
  { eapply line_words_corpus; [exact Hline|]. eapply list_elem_of_lookup_2. exact Hw. }
  destruct (full_vocab_list_sorted_lookup _ _ _ _ Hin) as (j & Hj & _).
  rewrite (dict_of_enumerate_NoDup _ _ _ Hnd Hj). simpl.
  split; [lia|]. rewrite Nat2Z.id. exact Hj.
Qed.

Lemma corpus_line_fully_encoded_witness :
  ∃ vocab rev_vocab,
    initialize_vocabulary (Some (create_vocabulary small_corpus 8 None true))
    = Ok (vocab, rev_vocab) ∧
    Forall2 (fun w id => (4 ≤ id)%Z ∧
                         rev_vocab !! Z.to_nat id = Some (lookup_key true w))
            (tokenize None ("c b c 12 13" +:+ String newline EmptyString))
            (sentence_to_token_ids ("c b c 12 13" +:+ String newline EmptyString)
                                   vocab None true).
Proof.
  apply (corpus_line_fully_encoded small_corpus
           ("c b c 12 13" +:+ String newline EmptyString) 8 None true).
  - vm_compute. discriminate.
  - intros line w. apply basic_tokenizer_no_space.
  - exact small_corpus_fresh.
  - vm_compute. right. left.
Defined.
